(** * The label-transform pipeline of [dataprovider/transformer.py]

    A shallow embedding of the [Transformer] pipeline and of the [Transform]
    variants ([Boundary], [Segmentation], [Affinity], [Semantic], [Synapse],
    [ObjectInstance], [CenterInstance]).

    - A numpy array is a [Volume]: its shape and its elements in C order.
      Elements are exact rationals; [astype('float32')] rounds them to
      binary32.
    - A sample is a Python [dict]: an association list in insertion order.
    - A [__call__] mutates the sample it is given and may raise: it is a
      function in a state-and-exception monad over the sample, so that the
      contents of the sample at the moment of a raise stay visible.
    - The functions of the modules [transform] (imported as [tf]) and
      [utils] and of the libraries [datatools] and numpy that the transforms
      call are the fields of the record [Kernels]; the theorems on the
      pipeline are stated for an arbitrary [Kernels].  The module
      [SpecKernels] gives the implementation that the specification
      describes in its section 4.
    - The constructors of [config_data.py], which read a volume and the
      description of a label transform from a section of a configuration
      file, are embedded in a part of their own, over the methods of the
      configuration object and the library functions they call. *)

From Stdlib Require Import String Ascii ZArith QArith Arith Lia Bool List.
Import ListNotations.

Local Open Scope string_scope.
Local Open Scope nat_scope.
Local Open Scope list_scope.

(** ** Exceptions *)

(** The two [assert] statements of the file, by the condition they test. *)
Inductive Assertion : Type :=
| KeyInSample (key : string)       (* assert key in sample *)
| IsInstanceTransform.             (* assert isinstance(tf, Transform) *)

Inductive Exn : Type :=
| AssertionError (a : Assertion)
| KeyError (key : string)
| NotImplementedError
| ValueError
| IndexError
| TypeError
| ShapeError.

(** A pure computation that may raise. *)
Inductive result (A : Type) : Type :=
| Ok (a : A)
| Error (e : Exn).

Arguments Ok {A} a.
Arguments Error {A} e.

Definition rbind {A B : Type} (r : result A) (k : A -> result B) : result B :=
  match r with
  | Ok a => k a
  | Error e => Error e
  end.

Notation "'let?' x := c 'in' k" := (rbind c (fun x => k))
  (at level 10, x pattern, c at level 100, k at level 200).

(** ** numpy arrays *)

Record Volume : Type := mkVolume { shape : list nat; data : list Q }.

(** Number of elements of an array of shape [sh]. *)
Definition size_of (sh : list nat) : nat := fold_right Nat.mul 1 sh.

Definition np_zeros (sh : list nat) : Volume := mkVolume sh (repeat 0%Q (size_of sh)).
Definition np_ones (sh : list nat) : Volume := mkVolume sh (repeat 1%Q (size_of sh)).

(** [n / d] rounded to the nearest integer, a tie to the even one. *)
Definition round_half_even (n d : Z) : Z :=
  let q := (n / d)%Z in
  match (2 * (n mod d) ?= d)%Z with
  | Lt => q
  | Gt => (q + 1)%Z
  | Eq => if Z.even q then q else (q + 1)%Z
  end.

(** The binary32 number nearest to [q], a tie to the one with an even
    significand (the rounding of IEEE 754 that numpy applies in a cast).
    The binary32 numbers are the multiples [m * 2^e * 2^-149] with
    [0 <= e] and a significand [m] of 24 bits at most: [|q| * 2^149] is
    rounded to a multiple of the power [2^e] that leaves 24 bits of it.
    The exponent is not bounded from above here: see [float32_finite]. *)
Definition float32_round (q : Q) : Q :=
  let n := (Z.abs (Qnum q) * 2 ^ 149)%Z in
  let d := Zpos (Qden q) in
  let e := Z.max (Z.log2 (n / d) - 23) 0 in
  let m := round_half_even n (d * 2 ^ e) in
  Qred ((Z.sgn (Qnum q) * m * 2 ^ e) # (2 ^ 149)).

(** [q] rounds to a finite binary32 number: its magnitude is below
    [2^128 - 2^103], half a unit in the last place above the largest one.
    From there on the cast of numpy gives an infinity, which the elements of
    a [Volume] do not include. *)
Definition float32_finite (q : Q) : bool :=
  (Z.abs (Qnum q) <? (2 ^ 128 - 2 ^ 103) * Zpos (Qden q))%Z.

(** [v.astype('float32')]: a fresh array of the same shape, every element
    rounded to binary32. *)
Definition astype_float32 (v : Volume) : Volume :=
  mkVolume (shape v) (map float32_round (data v)).

(** Broadcasting, on shapes read from the last axis on: an array of shape
    [rb] can be broadcast to the shape [ra] when it has no more axes and
    each of its axes has the length of the axis it meets, or length 1. *)
Fixpoint broadcastable (ra rb : list nat) : bool :=
  match ra, rb with
  | _, [] => true
  | [], _ :: _ => false
  | a :: ra', b :: rb' => ((b =? a) || (b =? 1)) && broadcastable ra' rb'
  end.

(** The position, in an array of shape [rb], of the element that
    broadcasting puts at position [p] of an array of shape [ra]; [stride]
    is the number of elements between two indices of the current axis. *)
Fixpoint broadcast_index (ra rb : list nat) (p stride : nat) : nat :=
  match ra, rb with
  | a :: ra', b :: rb' =>
      (if b =? 1 then 0 else (p mod a) * stride)
      + broadcast_index ra' rb' (p / a) (stride * b)
  | _, _ => 0
  end.

(** The elements of [c] broadcast to the shape [sh], when it can be. *)
Definition broadcast_to (sh : list nat) (c : Volume) : option (list Q) :=
  if broadcastable (rev sh) (rev (shape c))
  then Some (map (fun p => nth (broadcast_index (rev sh) (rev (shape c)) p 1) (data c) 0%Q)
               (seq 0 (size_of sh)))
  else None.

(** An indexed assignment drops the leading axes of length 1 that the
    value has in excess of the [n] axes of the slot. *)
Fixpoint squeeze_leading (n : nat) (sh : list nat) : list nat :=
  match sh with
  | 1 :: rest => if n <? length sh then squeeze_leading n rest else sh
  | _ => sh
  end.

(** [sh[-3:]]: the last three axes (all of them when there are fewer). *)
Definition last3 (sh : list nat) : list nat := skipn (length sh - 3) sh.

(** [sh[:-3]]: the axes in front of the last three. *)
Definition leading (sh : list nat) : list nat := firstn (length sh - 3) sh.

(** [v[i,...]]. *)
Definition getchan (v : Volume) (i : nat) : result Volume :=
  match shape v with
  | n :: sh =>
      if i <? n
      then Ok (mkVolume sh (firstn (size_of sh) (skipn (i * size_of sh) (data v))))
      else Error IndexError
  | [] => Error IndexError
  end.

(** [v[i,...] = c]: [c] is broadcast to the shape of the slot.  The cast of
    [c] to the element type of [v] is left to the caller. *)
Definition setchan (v : Volume) (i : nat) (c : Volume) : result Volume :=
  match shape v with
  | n :: sh =>
      if i <? n
      then match broadcast_to sh
                   (mkVolume (squeeze_leading (length sh) (shape c)) (data c)) with
           | Some xs =>
               Ok (mkVolume (shape v)
                     (firstn (i * size_of sh) (data v) ++ xs
                        ++ skipn ((i + 1) * size_of sh) (data v)))
           | None => Error ValueError
           end
      else Error IndexError
  | [] => Error IndexError
  end.

(** The array whose channels are [chans], in this order: shape [(n,) + sh]. *)
Definition np_stack (sh : list nat) (chans : list Volume) : Volume :=
  mkVolume (length chans :: sh) (concat (map data chans)).

(** [i]-th element in C order (0 when out of range). *)
Definition flat (v : Volume) (i : nat) : Q := nth i (data v) 0%Q.

(** Offset of the spatial index [(i, j, k)] inside a [(z, y, x)] block. *)
Definition offset3 (y x i j k : nat) : nat := (i * y + j) * x + k.

(** Element [(c, i, j, k)] of an array whose last three axes are [(z, y, x)];
    [c] numbers the leading indices in C order (0 for a 3-D array). *)
Definition at4 (v : Volume) (z y x c i j k : nat) : Q :=
  flat v (c * (z * y * x) + offset3 y x i j k).

(** [m[..., i, j, k] = a] on an array whose last three axes are [(z, y, x)]:
    position [(i, j, k)] of every leading index is assigned. *)
Definition setitem_last3 (m : Volume) (z y x i j k : nat) (a : Q) : Volume :=
  mkVolume (shape m)
    (map (fun pv : nat * Q =>
            if fst pv mod (z * y * x) =? offset3 y x i j k then a else snd pv)
         (combine (seq 0 (length (data m))) (data m))).

(** ** Python dictionaries *)

Section Dict.
Context {V : Type}.

(** Entries in insertion order; a dictionary holds a key at most once. *)
Definition dict : Type := list (string * V).

Definition keys (d : dict) : list string := map fst d.

Definition dict_wf (d : dict) : Prop := NoDup (keys d).

Fixpoint getitem (d : dict) (key : string) : option V :=
  match d with
  | [] => None
  | (k, v) :: rest => if String.eqb k key then Some v else getitem rest key
  end.

(** [key in d]. *)
Definition contains (d : dict) (key : string) : bool :=
  match getitem d key with
  | Some _ => true
  | None => false
  end.

(** [d[key] = v]: an existing key keeps its place, a new one goes last. *)
Fixpoint setitem (d : dict) (key : string) (v : V) : dict :=
  match d with
  | [] => [(key, v)]
  | (k, x) :: rest =>
      if String.eqb k key then (k, v) :: rest else (k, x) :: setitem rest key v
  end.

(** [d[key]] as an expression. *)
Definition subscript (d : dict) (key : string) : result V :=
  match getitem d key with
  | Some v => Ok v
  | None => Error (KeyError key)
  end.
End Dict.

Arguments dict V : clear implicits.

Definition Sample : Type := dict Volume.

(** [key+'_mask']: the key of the companion mask. *)
Definition mask_key (key : string) : string := (key ++ "_mask")%string.

(** ** Computations on the sample being processed *)

(** The sample after the computation, with the value returned or the
    exception raised. *)
Inductive Res (A : Type) : Type :=
| Done (a : A) (sample : Sample)
| Fail (e : Exn) (sample : Sample).

Arguments Done {A} a sample.
Arguments Fail {A} e sample.

Definition M (A : Type) : Type := Sample -> Res A.

Definition ret {A : Type} (a : A) : M A := fun sample => Done a sample.

Definition bind {A B : Type} (m : M A) (k : A -> M B) : M B :=
  fun sample =>
    match m sample with
    | Done a sample' => k a sample'
    | Fail e sample' => Fail e sample'
    end.

(** A pure step: the sample is not touched, an error is raised. *)
Definition lift {A : Type} (r : Sample -> result A) : M A :=
  fun sample =>
    match r sample with
    | Ok a => Done a sample
    | Error e => Fail e sample
    end.

Definition pure {A : Type} (r : result A) : M A := lift (fun _ => r).

(** [sample[key] = v]. *)
Definition store (key : string) (v : Volume) : M unit :=
  fun sample => Done tt (setitem sample key v).

Notation "x <- c ;; k" := (bind c (fun x => k))
  (at level 61, c at next level, right associativity).
Notation "' pat <- c ;; k" := (bind c (fun x => match x with pat => k end))
  (at level 61, pat pattern, c at next level, right associativity).
Notation "c ;; k" := (bind c (fun _ => k))
  (at level 61, right associativity).

(** What a [__call__] leaves behind: the sample it returns, or the exception
    it raises and the sample as it stands at that moment. *)
Inductive outcome (S : Type) : Type :=
| Return (s : S)
| Raise (e : Exn) (s : S).

Arguments Return {S} s.
Arguments Raise {S} e s.

Definition exec (m : M unit) (sample : Sample) : outcome Sample :=
  match m sample with
  | Done _ sample' => Return sample'
  | Fail e sample' => Raise e sample'
  end.

(** Sequencing of calls: what [sample = tf(sample, **kwargs)] does with the
    outcome of the previous statement. *)
Definition and_then {S : Type} (o : outcome S) (k : S -> outcome S) : outcome S :=
  match o with
  | Return s => k s
  | Raise e s => Raise e s
  end.

(** ** Transforms *)

(** An affinity distance [(dz, dy, dx)]. *)
Definition Offset : Type := (Z * Z * Z)%type.

(** A crop offset or crop size [(z, y, x)]. *)
Definition Vec3 : Type := (nat * nat * nat)%type.

(** The instances of [Transform] and of its subclasses, by class, with the
    attributes set by [__init__]. *)
Inductive Transform : Type :=
| TransformBase
| Boundary (source target : string) (rebalance : bool)
| Segmentation (source target : string) (recompute : bool)
| Affinity (dst : list Offset) (source target : string)
           (crop : option Vec3) (crop_size : option Vec3)
           (base_w : option Q) (recompute : bool)
| Semantic (ids : list Q) (source target : string) (rebalance : bool)
| Synapse (source target : string) (rebalance : bool) (base_w : Q)
| ObjectInstance (source target : string) (rebalance : bool)
| CenterInstance (source target : string) (mask : option string) (rebalance : bool).

(** Python values that reach the pipeline as call parameters or as the
    argument of [append]. *)
Inductive PyObject : Type :=
| PyNone
| PyNum (q : Q)
| PyStr (s : string)
| PyTransform (t : Transform).

(** [**kwargs]. *)
Definition Kwargs : Type := dict PyObject.

Definition isinstance_Transform (o : PyObject) : bool :=
  match o with
  | PyTransform _ => true
  | _ => false
  end.

(** The functions of [transform], [utils], [datatools] and numpy that the
    transforms call.  A kernel with an output argument [ret] takes the view
    it is given and returns it filled. *)
Record Kernels : Type := mkKernels {
  tf_multiclass_expansion : Volume -> list Q -> result (Volume * Volume);
  tf_rebalance_binary_class : Volume -> Volume -> option Q -> result Volume;
  tf_affinitize : Volume -> Volume -> Offset -> result Volume;
  tf_affinitize_mask : Volume -> Volume -> Offset -> result Volume;
  tf_binarize : Volume -> result Volume;
  tf_binarize_object : Volume -> PyObject -> result Volume;
  tf_crop : Volume -> Vec3 -> option Vec3 -> result Volume;
  utils_check_volume : Volume -> result Volume;
  datatools_get_segmentation : Volume -> result Volume;
  np_imul : Volume -> Volume -> result Volume
}.

(** [Transform.extract]. *)
Definition extract (sample : Sample) (key : string) : result (Volume * Volume) :=
  if contains sample key
  then
    let? msk := (if contains sample (mask_key key)
                 then let? m := subscript sample (mask_key key) in
                      Ok (astype_float32 m)
                 else let? v := subscript sample key in
                      Ok (np_ones (shape v))) in
    let? v := subscript sample key in
    Ok (v, msk)
  else Error (AssertionError (KeyInSample key)).

Section Transforms.
Variable K : Kernels.

(** The block "Recompute connected components" of [Segmentation] and
    [Affinity]. *)
Definition recompute_components (seg : Volume) : result Volume :=
  let sh3 := last3 (shape seg) in
  let? a0 := tf_affinitize K seg (np_zeros sh3) (0, 0, 1)%Z in
  let? a1 := tf_affinitize K seg (np_zeros sh3) (0, 1, 0)%Z in
  let? a2 := tf_affinitize K seg (np_zeros sh3) (1, 0, 0)%Z in
  datatools_get_segmentation K (np_stack sh3 [a0; a1; a2]).

(** The loop [for i, dst in enumerate(self.dst)] of [Affinity]: the
    channels of [affs] and of [msks]. *)
Fixpoint affinitize_channels (seg msk : Volume) (sh3 : list nat) (dsts : list Offset)
  : result (list Volume * list Volume) :=
  match dsts with
  | [] => Ok ([], [])
  | dst :: rest =>
      let? a := tf_affinitize K seg (np_zeros sh3) dst in
      let? m := tf_affinitize_mask K msk (np_zeros sh3) dst in
      let? (affs, msks) := affinitize_channels seg msk sh3 rest in
      Ok (a :: affs, m :: msks)
  end.

(** The loops [msk[c,...] = tf.rebalance_binary_class(lbl[c,...], msk[c,...], ...)];
    [msk] is a float32 array, and the assignment casts to its type. *)
Fixpoint rebalance_channels (lbl msk : Volume) (base_w : option Q) (cs : list nat)
  : result Volume :=
  match cs with
  | [] => Ok msk
  | c :: rest =>
      let? l := getchan lbl c in
      let? m := getchan msk c in
      let? w := tf_rebalance_binary_class K l m base_w in
      let? msk' := setchan msk c (astype_float32 w) in
      rebalance_channels lbl msk' base_w rest
  end.

(** The loop [for k, v in sample.items(): sample[k] = tf.crop(v, ...)]. *)
Fixpoint crop_items (offset : Vec3) (size : option Vec3) (items : list (string * Volume))
  : M unit :=
  match items with
  | [] => ret tt
  | (k, v) :: rest =>
      c <- pure (tf_crop K v offset size) ;;
      store k c ;;
      crop_items offset size rest
  end.

Definition Boundary_call (source target : string) (rebalance : bool) : M unit :=
  '(bdr, msk) <- lift (fun sample => extract sample source) ;;
  '(lbl, _) <- pure (tf_multiclass_expansion K bdr [0%Q]) ;;
  msk <- pure (if rebalance then tf_rebalance_binary_class K lbl msk None else Ok msk) ;;
  store target lbl ;;
  store (mask_key target) msk.

Definition Segmentation_call (source target : string) (recompute : bool) : M unit :=
  '(seg, msk) <- lift (fun sample => extract sample source) ;;
  seg <- pure (if recompute then recompute_components seg else Ok seg) ;;
  v <- pure (utils_check_volume K (astype_float32 seg)) ;;
  store target v ;;
  m <- pure (utils_check_volume K (astype_float32 msk)) ;;
  store (mask_key target) m.

Definition Affinity_call (dst : list Offset) (source target : string)
    (crop : option Vec3) (crop_size : option Vec3) (base_w : option Q)
    (recompute : bool) : M unit :=
  '(seg, msk) <- lift (fun sample => extract sample source) ;;
  seg <- pure (if recompute then recompute_components seg else Ok seg) ;;
  '(affs, msks) <- pure (affinitize_channels seg msk (last3 (shape seg)) dst) ;;
  let lbl := np_stack (last3 (shape seg)) affs in
  let msk := np_stack (last3 (shape seg)) msks in
  msk <- pure (match base_w with
               | Some w => rebalance_channels lbl msk (Some w) (seq 0 (hd 0 (shape lbl)))
               | None => Ok msk
               end) ;;
  store target lbl ;;
  store (mask_key target) msk ;;
  match crop with
  | Some offset => fun sample => crop_items offset crop_size sample sample
  | None => ret tt
  end.

Definition Semantic_call (ids : list Q) (source target : string) (rebalance : bool)
  : M unit :=
  '(sem, msk) <- lift (fun sample => extract sample source) ;;
  '(lbl, msk2) <- pure (tf_multiclass_expansion K sem ids) ;;
  msk <- pure (np_imul K msk msk2) ;;
  msk <- pure (if rebalance
               then rebalance_channels lbl msk None (seq 0 (length ids))
               else Ok msk) ;;
  store target lbl ;;
  store (mask_key target) msk.

Definition Synapse_call (source target : string) (rebalance : bool) (base_w : Q)
  : M unit :=
  '(syn, msk) <- lift (fun sample => extract sample source) ;;
  lbl <- pure (tf_binarize K syn) ;;
  msk <- pure (if rebalance
               then tf_rebalance_binary_class K lbl msk (Some base_w)
               else Ok msk) ;;
  store target lbl ;;
  store (mask_key target) msk.

Definition ObjectInstance_call (source target : string) (rebalance : bool)
    (kwargs : Kwargs) : M unit :=
  '(seg, msk) <- lift (fun sample => extract sample source) ;;
  let object_id := if contains kwargs "object_id"
                   then match getitem kwargs "object_id" with
                        | Some o => o
                        | None => PyNone
                        end
                   else PyNone in
  lbl <- pure (tf_binarize_object K seg object_id) ;;
  msk <- pure (if rebalance then tf_rebalance_binary_class K lbl msk None else Ok msk) ;;
  store target lbl ;;
  store (mask_key target) msk.

(** The body of [if self.mask is not None:] up to the assignment to
    [mask]: [z, y, x = seg.shape[-3:]] needs three axes, and the indexed
    assignment needs the index [(z//2, y//2, x//2)] to exist. *)
Definition center_mask (seg : Volume) : result Volume :=
  match last3 (shape seg) with
  | [z; y; x] =>
      if (z =? 0) || (y =? 0) || (x =? 0)
      then Error IndexError
      else Ok (setitem_last3 (np_zeros (shape seg)) z y x (z / 2) (y / 2) (x / 2) 1%Q)
  | _ => Error ValueError
  end.

Definition CenterInstance_mask (source : string) (mask : option string) : M unit :=
  match mask with
  | Some key =>
      seg <- lift (fun sample => subscript sample source) ;;
      m <- pure (center_mask seg) ;;
      store key m
  | None => ret tt
  end.

Definition CenterInstance_call (source target : string) (mask : option string)
    (rebalance : bool) (kwargs : Kwargs) : M unit :=
  CenterInstance_mask source mask ;;
  ObjectInstance_call source target rebalance kwargs.

(** [tf(sample, **kwargs)], dispatched on the class of [tf]. *)
Definition call (tf : Transform) (sample : Sample) (kwargs : Kwargs) : outcome Sample :=
  match tf with
  | TransformBase => Raise NotImplementedError sample
  | Boundary source target rebalance =>
      exec (Boundary_call source target rebalance) sample
  | Segmentation source target recompute =>
      exec (Segmentation_call source target recompute) sample
  | Affinity dst source target crop crop_size base_w recompute =>
      exec (Affinity_call dst source target crop crop_size base_w recompute) sample
  | Semantic ids source target rebalance =>
      exec (Semantic_call ids source target rebalance) sample
  | Synapse source target rebalance base_w =>
      exec (Synapse_call source target rebalance base_w) sample
  | ObjectInstance source target rebalance =>
      exec (ObjectInstance_call source target rebalance kwargs) sample
  | CenterInstance source target mask rebalance =>
      exec (CenterInstance_call source target mask rebalance kwargs) sample
  end.

(** ** The pipeline *)

Record Transformer : Type := mkTransformer { _transforms : list Transform }.

(** [Transformer.__init__]. *)
Definition Transformer_init : Transformer := mkTransformer [].

(** The loop of [Transformer.__call__] over the remaining transforms. *)
Fixpoint run (tfs : list Transform) (sample : Sample) (kwargs : Kwargs) : outcome Sample :=
  match tfs with
  | [] => Return sample
  | tf :: rest => and_then (call tf sample kwargs) (fun sample' => run rest sample' kwargs)
  end.

(** [Transformer.__call__]. *)
Definition Transformer_call (self : Transformer) (sample : Sample) (kwargs : Kwargs)
  : outcome Sample :=
  run (_transforms self) sample kwargs.

(** [Transformer.append]: the outcome carries the pipeline object. *)
Definition append (self : Transformer) (tf : PyObject) : outcome Transformer :=
  match tf with
  | PyTransform t => Return (mkTransformer (_transforms self ++ [t]))
  | _ => Raise (AssertionError IsInstanceTransform) self
  end.

End Transforms.

(** * The data sections of [config_data.py]

    [ConfigData] builds a volume from a section of a configuration file and
    [ConfigLabel] adds the description of a label transform.  The
    configuration object is used through its methods [has_section],
    [has_option] and [get] only: it is a record of these.  [eval], the
    reader [emio.imread], [fill_data], [check_tensor], [tensor_func.evaluate]
    and the constructor of the base class [TensorData] are the fields of the
    record [Libraries].  The options hold literals (tuples, dictionaries),
    whose value [eval] gives whatever the scope of the call: [py_eval] is a
    function of the option string. *)

(** The values of the options, once evaluated. *)
#[warnings="-register-all"] Inductive PyValue : Type :=
| VNone
| VBool (b : bool)
| VInt (n : Z)
| VFloat (q : Q)
| VStr (s : string)
| VTuple (items : list PyValue)
| VList (items : list PyValue)
| VDict (entries : list (PyValue * PyValue)).

(** The [assert] statements of the file, by the condition they test. *)
Inductive ConfigAssertion : Type :=
| HasSection (section : string)    (* assert config.has_section(section) *)
| IsInstanceDict                   (* assert isinstance(pp, dict) *)
| TypeInDict.                      (* assert 'type' in pp *)

Inductive ConfigExn : Type :=
| ConfigAssertionError (a : ConfigAssertion)
| RuntimeError (message : string)
| NotIterable                      (* the TypeError of [tuple] on a value that is not iterable *)
| Foreign (name : string).         (* raised by [eval], by the parser or by a library *)

(** A step of the constructors: its value, or the exception it raises. *)
Inductive attempt (A : Type) : Type :=
| Got (a : A)
| Raised (e : ConfigExn).

Arguments Got {A} a.
Arguments Raised {A} e.

Definition abind {A B : Type} (r : attempt A) (k : A -> attempt B) : attempt B :=
  match r with
  | Got a => k a
  | Raised e => Raised e
  end.

Notation "'let!' x := c 'in' k" := (abind c (fun x => k))
  (at level 10, x pattern, c at level 100, k at level 200).

(** The configuration object, by the methods that are called on it. *)
Record ConfigParser : Type := mkConfigParser {
  has_section : string -> bool;
  has_option : string -> string -> bool;
  get : string -> string -> attempt string
}.

(** What the constructors call outside the file; [T] is the state that
    [TensorData.__init__] builds. *)
Record Libraries (T : Type) : Type := mkLibraries {
  py_eval : string -> attempt PyValue;
  emio_imread : string -> attempt Volume;
  fill_data : PyValue -> PyValue -> attempt Volume;
  check_tensor : Volume -> attempt Volume;
  tensor_func_evaluate : Volume -> PyValue -> attempt Volume;
  TensorData_init : Volume -> PyValue -> PyValue -> attempt T
}.

Arguments py_eval {T} _ _.
Arguments emio_imread {T} _ _.
Arguments fill_data {T} _ _ _.
Arguments check_tensor {T} _ _.
Arguments tensor_func_evaluate {T} _ _ _.
Arguments TensorData_init {T} _ _ _ _.

(** [tuple(v)]. *)
Definition py_tuple (v : PyValue) : attempt PyValue :=
  match v with
  | VTuple items => Got (VTuple items)
  | VList items => Got (VTuple items)
  | VStr s => Got (VTuple (map (fun c => VStr (String c EmptyString)) (list_ascii_of_string s)))
  | VDict entries => Got (VTuple (map fst entries))
  | VNone | VBool _ | VInt _ | VFloat _ => Raised NotIterable
  end.

(** [key in d] for the entries of a dictionary and a string [key]. *)
Definition has_key (entries : list (PyValue * PyValue)) (key : string) : bool :=
  existsb (fun kv => match fst kv with
                     | VStr s => String.eqb s key
                     | _ => false
                     end) entries.

(** [assert isinstance(pp, dict)] and [assert 'type' in pp]. *)
Definition check_validity (pp : PyValue) : attempt unit :=
  match pp with
  | VDict entries =>
      if has_key entries "type" then Got tt
      else Raised (ConfigAssertionError TypeInDict)
  | _ => Raised (ConfigAssertionError IsInstanceDict)
  end.

(** [s.split(sep)] for a separator of one character. *)
Fixpoint str_split (sep : ascii) (s : string) : list string :=
  match s with
  | EmptyString => [EmptyString]
  | String c rest =>
      if Ascii.eqb c sep then EmptyString :: str_split sep rest
      else match str_split sep rest with
           | piece :: pieces => String c piece :: pieces
           | [] => [String c EmptyString]
           end
  end.

Definition newline : ascii := "010"%char.

(** [(0,0,0)]. *)
Definition zeros3 : PyValue := VTuple [VInt 0; VInt 0; VInt 0].

(** [{'type':'zero'}]. *)
Definition zero_filler : PyValue := VDict [(VStr "type", VStr "zero")].

Section ConfigData.
Context {T : Type}.
Variable L : Libraries T.

(** [tuple(eval(str(config.get(section, option))))]. *)
Definition eval_tuple (config : ConfigParser) (section option : string)
  : attempt PyValue :=
  let! s := get config section option in
  let! v := py_eval L s in
  py_tuple v.

(** The blocks "FoV" and "Offset": the tuple of the option, [(0,0,0)]
    without the option. *)
Definition tuple_option (config : ConfigParser) (section option : string)
  : attempt PyValue :=
  if has_option config section option
  then eval_tuple config section option
  else Got zeros3.

(** [[eval(x) for x in preprocess]]. *)
Fixpoint eval_each (lines : list string) : attempt (list PyValue) :=
  match lines with
  | [] => Got []
  | x :: rest =>
      let! v := py_eval L x in
      let! vs := eval_each rest in
      Got (v :: vs)
  end.

(** The loop "Check the validity of each preprocessing". *)
Fixpoint check_each (preprocess : list PyValue) : attempt unit :=
  match preprocess with
  | [] => Got tt
  | pp :: rest =>
      let! _ := check_validity pp in
      check_each rest
  end.

(** The loop [for pp in preprocess: data = tensor_func.evaluate(data, pp)]. *)
Fixpoint evaluate_each (data : Volume) (preprocess : list PyValue) : attempt Volume :=
  match preprocess with
  | [] => Got data
  | pp :: rest =>
      let! data := tensor_func_evaluate L data pp in
      evaluate_each data rest
  end.

(** The block "Either read data from specified file, or generate data with
    specified shape and filler". *)
Definition read_or_fill (config : ConfigParser) (section : string) : attempt Volume :=
  if has_option config section "file"
  then let! path := get config section "file" in
       emio_imread L path
  else if has_option config section "shape"
  then let! shape := eval_tuple config section "shape" in
       let! filler := (if has_option config section "filler"
                       then let! f := get config section "filler" in
                            py_eval L f
                       else Got zero_filler) in
       fill_data L shape filler
  else Raised (RuntimeError ("invalid data section [" ++ section ++ "]")).

(** The block "List of global preprocessing". *)
Definition preprocess_option (config : ConfigParser) (section : string)
  : attempt (list PyValue) :=
  if has_option config section "preprocess"
  then let! s := get config section "preprocess" in
       eval_each (str_split newline s)
  else Got [].

(** [ConfigData._prepare_data]. *)
Definition _prepare_data (config : ConfigParser) (section : string)
  : attempt (Volume * PyValue * PyValue) :=
  if has_section config section
  then
    let! data := read_or_fill config section in
    let! fov := tuple_option config section "fov" in
    let! offset := tuple_option config section "offset" in
    let! preprocess := preprocess_option config section in
    let! _ := check_each preprocess in
    let! data := check_tensor L data in
    let! data := evaluate_each data preprocess in
    Got (data, fov, offset)
  else Raised (ConfigAssertionError (HasSection section)).

(** [ConfigData.__init__]. *)
Definition ConfigData_init (config : ConfigParser) (section : string) : attempt T :=
  let! (data, fov, offset) := _prepare_data config section in
  TensorData_init L data fov offset.

(** A [ConfigLabel]: the state of the base class and the attribute
    [_transform]. *)
Record ConfigLabel : Type := mkConfigLabel {
  tensor_data : T;
  _transform : PyValue
}.

(** [ConfigLabel._transformation]: the value it assigns to [self._transform]. *)
Definition _transformation (config : ConfigParser) (section : string)
  : attempt PyValue :=
  let! transform := (if has_option config section "transform"
                     then let! s := get config section "transform" in
                          py_eval L s
                     else Got VNone) in
  let! _ := (match transform with
             | VNone => Got tt
             | _ => check_validity transform
             end) in
  Got transform.

(** [ConfigLabel.__init__]. *)
Definition ConfigLabel_init (config : ConfigParser) (section : string)
  : attempt ConfigLabel :=
  let! base := ConfigData_init config section in
  let! transform := _transformation config section in
  Got (mkConfigLabel base transform).

(** [ConfigLabel.get_transform]: [copy.deepcopy] gives an equal value. *)
Definition get_transform (self : ConfigLabel) : PyValue := _transform self.

End ConfigData.

Arguments ConfigLabel T : clear implicits.

(** * The kernels as the specification describes them

    One implementation of [Kernels], written after sections 4.1 and 4.2 of
    the specification.  The theorems on the pipeline do not depend on it;
    it gives the meaning of "crop", "binarize one object" and "recompute the
    connected components" where a statement is about the values computed,
    and it is the implementation on which the concrete runs are evaluated. *)

Module SpecKernels.

(** The spatial extent [(z, y, x)] of an array: its last three axes; an
    array with fewer axes is read as one slab, row or voxel. *)
Definition spatial (sh : list nat) : nat * nat * nat :=
  match last3 sh with
  | [z; y; x] => (z, y, x)
  | [y; x] => (1, y, x)
  | [x] => (1, 1, x)
  | _ => (1, 1, 1)
  end.

(** The voxel at displacement [d] from voxel [p] of a [(z, y, x)] block,
    when it is inside the block. *)
Definition shifted (z y x p : nat) (d : Offset) : option nat :=
  let '(dz, dy, dx) := d in
  let i := (Z.of_nat (p / (y * x)) + dz)%Z in
  let j := (Z.of_nat ((p / x) mod y) + dy)%Z in
  let k := (Z.of_nat (p mod x) + dx)%Z in
  if ((0 <=? i) && (i <? Z.of_nat z) && (0 <=? j) && (j <? Z.of_nat y)
      && (0 <=? k) && (k <? Z.of_nat x))%Z
  then Some (offset3 y x (Z.to_nat i) (Z.to_nat j) (Z.to_nat k))
  else None.

Definition nonzero (q : Q) : bool := negb (Qeq_bool q 0).

(** Modelled from the spec: [affinitize(seg, offset)] of section 4.1, the
    function [tf.affinitize] of the missing module [transform]: 1.0 where
    [seg[v] == seg[v+offset]] and [seg[v] != 0], 0.0 elsewhere and where
    [v+offset] leaves the volume. *)
Definition affinitize (seg ret : Volume) (dst : Offset) : result Volume :=
  let '(z, y, x) := spatial (shape seg) in
  Ok (mkVolume (shape ret)
        (map (fun p =>
                match shifted z y x p dst with
                | Some q =>
                    if Qeq_bool (flat seg p) (flat seg q) && nonzero (flat seg p)
                    then 1%Q else 0%Q
                | None => 0%Q
                end)
             (seq 0 (z * y * x)))).

(** Modelled from the spec: [affinitize_mask(mask, offset)] of section 4.1,
    the function [tf.affinitize_mask] of the missing module [transform]:
    1.0 only where both [mask[v]] and [mask[v+offset]] are nonzero. *)
Definition affinitize_mask (msk ret : Volume) (dst : Offset) : result Volume :=
  let '(z, y, x) := spatial (shape msk) in
  Ok (mkVolume (shape ret)
        (map (fun p =>
                match shifted z y x p dst with
                | Some q =>
                    if nonzero (flat msk p) && nonzero (flat msk q)
                    then 1%Q else 0%Q
                | None => 0%Q
                end)
             (seq 0 (z * y * x)))).

(** The edges of the affinity graph: channel 0, 1, 2 of [aff] grants the
    adjacency along x, y, z, as the recompute block fills them. *)
Definition axis_offsets : list (nat * Offset) :=
  [(0, (0, 0, 1)%Z); (1, (0, 1, 0)%Z); (2, (1, 0, 0)%Z)].

Definition edges_at (aff : Volume) (z y x p : nat) : list (nat * nat) :=
  flat_map (fun cd : nat * Offset =>
              if Qeq_bool (flat aff (fst cd * (z * y * x) + p)) 1
              then match shifted z y x p (snd cd) with
                   | Some q => [(p, q)]
                   | None => []
                   end
              else [])
           axis_offsets.

Definition edges (aff : Volume) : list (nat * nat) :=
  let '(z, y, x) := spatial (tl (shape aff)) in
  flat_map (edges_at aff z y x) (seq 0 (z * y * x)).

(** Joining the components of the two ends of an edge: the label of the
    second end is replaced by the label of the first, everywhere. *)
Definition merge (labels : list nat) (e : nat * nat) : list nat :=
  let la := nth (fst e) labels 0 in
  let lb := nth (snd e) labels 0 in
  map (fun l => if l =? lb then la else l) labels.

(** Connected components of [n] voxels under [es]: every voxel starts with
    an ID of its own, [1 + its index], and every edge joins two components. *)
Definition components (n : nat) (es : list (nat * nat)) : list nat :=
  fold_left merge es (map S (seq 0 n)).

Definition id_of (l : nat) : Q := inject_Z (Z.of_nat l).

(** Modelled from the spec: [recompute_segmentation] of section 4.1, the
    function [get_segmentation] of the external library [datatools]:
    connected-component labelling of the voxel lattice under the three
    affinity channels of an array of shape [(3,) + spatial shape].
    Connected voxels share a positive ID; a voxel with
    no positive affinity keeps an ID of its own (the first of the two
    policies that section 9 leaves open). *)
Definition get_segmentation (aff : Volume) : result Volume :=
  let '(z, y, x) := spatial (tl (shape aff)) in
  Ok (mkVolume (tl (shape aff))
        (map id_of (components (z * y * x) (edges aff)))).

(** Modelled from the spec: [multiclass_expansion(volume, ids)] of section
    4.1, the function [tf.multiclass_expansion] of the missing module
    [transform]: one channel per ID marking the voxels equal to it, and a
    mask that is 0 on the voxels whose value is 0, for every channel. *)
Definition multiclass_expansion (vol : Volume) (ids : list Q)
  : result (Volume * Volume) :=
  Ok (np_stack (shape vol)
        (map (fun id => mkVolume (shape vol)
                          (map (fun v => if Qeq_bool v id then 1%Q else 0%Q) (data vol)))
             ids),
      np_stack (shape vol)
        (map (fun _ => mkVolume (shape vol)
                         (map (fun v => if nonzero v then 1%Q else 0%Q) (data vol)))
             ids)).

(** Modelled from the spec: [binarize(volume)] of section 4.1, the
    function [tf.binarize] of the missing module [transform]. *)
Definition binarize (vol : Volume) : result Volume :=
  Ok (mkVolume (shape vol) (map (fun v => if nonzero v then 1%Q else 0%Q) (data vol))).

(** The ID at the centre voxel [(z//2, y//2, x//2)]. *)
Definition center_id (seg : Volume) : Q :=
  let '(z, y, x) := spatial (shape seg) in
  flat seg (offset3 y x (z / 2) (y / 2) (x / 2)).

(** The ID that [binarize_object] keeps: the one given, or the ID at the
    centre voxel when none is given. *)
Definition target_id (seg : Volume) (object_id : PyObject) : PyObject :=
  match object_id with
  | PyNone => PyNum (center_id seg)
  | o => o
  end.

(** A voxel of value [v] carries the ID [o]. *)
Definition carries (v : Q) (o : PyObject) : bool :=
  match o with
  | PyNum q => Qeq_bool v q
  | _ => false
  end.

(** Modelled from the spec: [binarize_object(volume, object_id)] of section
    4.1, the function [tf.binarize_object] of the missing module
    [transform]: 1.0 on the voxels of the target ID, 0 on all others. *)
Definition binarize_object (seg : Volume) (object_id : PyObject) : result Volume :=
  Ok (mkVolume (shape seg)
        (map (fun v => if carries v (target_id seg object_id) then 1%Q else 0%Q)
             (data seg))).

(** Modelled from the spec: [crop(volume, offset, size)] of section 4.1,
    the function [tf.crop] of the missing module [transform]: the sub-box
    of extent [size] at [offset] of the last three axes, for every leading
    index; [ShapeError] when [offset + size] exceeds the volume.  Without a
    size the sub-box runs to the end of the volume. *)
Definition crop (vol : Volume) (offset : Vec3) (size : option Vec3) : result Volume :=
  let '(z, y, x) := spatial (shape vol) in
  let '(oz, oy, ox) := offset in
  let '(sz, sy, sx) := match size with
                       | Some s => s
                       | None => (z - oz, y - oy, x - ox)
                       end in
  if (oz + sz <=? z) && (oy + sy <=? y) && (ox + sx <=? x)
  then Ok (mkVolume (leading (shape vol) ++ [sz; sy; sx])
             (map (fun p =>
                     let c := p / (sz * sy * sx) in
                     let i := (p / (sy * sx)) mod sz in
                     let j := (p / sx) mod sy in
                     let k := p mod sx in
                     flat vol (c * (z * y * x) + offset3 y x (oz + i) (oy + j) (ox + k)))
                  (seq 0 (size_of (leading (shape vol)) * (sz * sy * sx)))))
  else Error ShapeError.

Definition count_where (f : Q -> Q -> bool) (lbl msk : Volume) : nat :=
  length (filter (fun lm : Q * Q => f (fst lm) (snd lm)) (combine (data lbl) (data msk))).

Definition ratio (n d : nat) : Q := (inject_Z (Z.of_nat n) / inject_Z (Z.of_nat d))%Q.

Definition Qmax (a b : Q) : Q := if Qle_bool a b then b else a.

(** Modelled from the spec: the Rebalancer of section 4.2, the function
    [tf.rebalance_binary_class] of the missing module [transform]; a label
    and a mask of different shapes are the [ShapeError] of section 7. *)
Definition rebalance_binary_class (lbl msk : Volume) (base_w : option Q)
  : result Volume :=
  if list_eq_dec Nat.eq_dec (shape lbl) (shape msk)
  then
    let valid (m : Q) := negb (Qle_bool m 0) in
    let n1 := count_where (fun l m => Qeq_bool l 1 && valid m) lbl msk in
    let n0 := count_where (fun l m => Qeq_bool l 0 && valid m) lbl msk in
    if (n1 =? 0) || (n0 =? 0) then Ok msk
    else
      let w1 := ratio (n0 + n1) (2 * n1) in
      let w0 := match base_w with
                | Some b => Qmax (ratio (n0 + n1) (2 * n0)) (b * w1)%Q
                | None => ratio (n0 + n1) (2 * n0)
                end in
      Ok (mkVolume (shape msk)
            (map (fun lm : Q * Q =>
                    if Qeq_bool (fst lm) 1 then Qred (snd lm * w1)
                    else if Qeq_bool (fst lm) 0 then Qred (snd lm * w0)
                    else snd lm)
                 (combine (data lbl) (data msk))))
  else Error ShapeError.

(** Modelled from the spec: the "canonical numeric volume form" of section
    4.3, the function [utils.check_volume] of the missing module [utils];
    an array of exact values is its own canonical form. *)
Definition check_volume (vol : Volume) : result Volume := Ok vol.

(** numpy's [a *= b] for two float32 arrays: [b] is broadcast to the shape
    of [a], which the result keeps, and the products are rounded. *)
Definition imul (a b : Volume) : result Volume :=
  match broadcast_to (shape a) b with
  | Some ys =>
      Ok (mkVolume (shape a)
            (map (fun xy : Q * Q => float32_round (fst xy * snd xy))
               (combine (data a) ys)))
  | None => Error ValueError
  end.

Definition kernels : Kernels :=
  {| tf_multiclass_expansion := multiclass_expansion;
     tf_rebalance_binary_class := rebalance_binary_class;
     tf_affinitize := affinitize;
     tf_affinitize_mask := affinitize_mask;
     tf_binarize := binarize;
     tf_binarize_object := binarize_object;
     tf_crop := crop;
     utils_check_volume := check_volume;
     datatools_get_segmentation := get_segmentation;
     np_imul := imul |}.

(** *** The affinity graph *)

(** Connected by the edges [es]: the least equivalence that holds them. *)
Inductive conn (es : list (nat * nat)) : nat -> nat -> Prop :=
| conn_refl p : conn es p p
| conn_edge a b : In (a, b) es -> conn es a b
| conn_sym p q : conn es p q -> conn es q p
| conn_trans p m q : conn es p m -> conn es m q -> conn es p q.

(** The labels [ls] of [n] voxels tell the classes of [es] apart. *)
Definition labels_of (n : nat) (es : list (nat * nat)) (ls : list nat) : Prop :=
  length ls = n /\
  (forall p, p < n -> 1 <= nth p ls 0) /\
  (forall p q, p < n -> q < n -> (nth p ls 0 = nth q ls 0 <-> conn es p q)).

(** Voxel [p] of a volume with elements [S] has a positive affinity along
    [d]: the voxel at [d] exists and has the same nonzero ID. *)
Definition linked (S : nat -> Q) (z y x : nat) (d : Offset) (p : nat) : bool :=
  match shifted z y x p d with
  | Some q => Qeq_bool (S p) (S q) && nonzero (S p)
  | None => false
  end.

(** The affinities along [d] of a volume with elements [S], in C order. *)
Definition affinity_data (S : nat -> Q) (z y x : nat) (d : Offset) : list Q :=
  map (fun p => if linked S z y x d p then 1%Q else 0%Q) (seq 0 (z * y * x)).

(** The three channels of the recompute block, stacked. *)
Definition axis_affinities (S : nat -> Q) (sh3 : list nat) (z y x : nat) : Volume :=
  np_stack sh3
    [mkVolume sh3 (affinity_data S z y x (0, 0, 1)%Z);
     mkVolume sh3 (affinity_data S z y x (0, 1, 0)%Z);
     mkVolume sh3 (affinity_data S z y x (1, 0, 0)%Z)].

End SpecKernels.

(** * The vocabulary of the statements *)

(** The pipeline obtained from a new [Transformer] by appending the
    transforms of [tfs] one after the other. *)
Definition appended (tfs : list Transform) : outcome Transformer :=
  fold_left (fun o tf => and_then o (fun self => append self (PyTransform tf)))
    tfs (Return Transformer_init).

(** Two calls of one transform in sequence. *)
Definition twice (K : Kernels) (tf : Transform) (sample : Sample) (kwargs : Kwargs)
  : outcome Sample :=
  and_then (call K tf sample kwargs) (fun sample' => call K tf sample' kwargs).

(** The configured target key of a transform; the interface itself has none. *)
Definition target_of (tf : Transform) : option string :=
  match tf with
  | TransformBase => None
  | Boundary _ target _ => Some target
  | Segmentation _ target _ => Some target
  | Affinity _ _ target _ _ _ _ => Some target
  | Semantic _ _ target _ => Some target
  | Synapse _ target _ _ => Some target
  | ObjectInstance _ target _ => Some target
  | CenterInstance _ target _ _ => Some target
  end.

(** The sample in which the first entries of [items] were replaced by their
    crops [cropped], in the order of the loop. *)
Definition crop_written (sample : Sample) (items : list (string * Volume))
    (cropped : list Volume) : Sample :=
  fold_left (fun acc kc => setitem acc (fst (fst kc)) (snd kc))
    (combine items cropped) sample.

(** ** Computations: what they read, write and leave behind *)

(** The computation does not write to the sample. *)
Definition readonly {A : Type} (m : M A) : Prop :=
  forall s, match m s with Done _ s' | Fail _ s' => s' = s end.

(** The computation always returns. *)
Definition never_fails {A : Type} (m : M A) : Prop :=
  forall s, exists a s', m s = Done a s'.

(** A raise leaves the sample as it was. *)
Definition atomic {A : Type} (m : M A) : Prop :=
  forall s e s', m s = Fail e s' -> s' = s.

(** Keys are only ever added. *)
Definition grows {A : Type} (m : M A) : Prop :=
  forall s, match m s with
            | Done _ s' | Fail _ s' => forall k, contains s k = true -> contains s' k = true
            end.

(** The sample returned satisfies [P]. *)
Definition ensures {A : Type} (P : Sample -> Prop) (m : M A) : Prop :=
  forall s a s', m s = Done a s' -> P s'.

(** Holding the keys [k1] and [k2]. *)
Definition holds (k1 k2 : string) (s : Sample) : Prop :=
  contains s k1 = true /\ contains s k2 = true.

(** ** What a transform reads and what it assigns *)

(** The configured source key of a transform; the interface itself has none. *)
Definition source_of (tf : Transform) : option string :=
  match tf with
  | TransformBase => None
  | Boundary source _ _ => Some source
  | Segmentation source _ _ => Some source
  | Affinity _ source _ _ _ _ _ => Some source
  | Semantic _ source _ _ => Some source
  | Synapse source _ _ _ => Some source
  | ObjectInstance source _ _ => Some source
  | CenterInstance source _ _ _ => Some source
  end.

(** The transform is an [Affinity] with a crop, whose loop assigns every
    key of the sample. *)
Definition crops (tf : Transform) : bool :=
  match tf with
  | Affinity _ _ _ (Some _) _ _ _ => true
  | _ => false
  end.

(** The keys of the assignments [sample[...] = ...] of a transform, in the
    order of the assignments (the crop loop aside). *)
Definition written_keys (tf : Transform) : list string :=
  match tf with
  | TransformBase => []
  | Boundary _ target _ => [target; mask_key target]
  | Segmentation _ target _ => [target; mask_key target]
  | Affinity _ _ target _ _ _ _ => [target; mask_key target]
  | Semantic _ _ target _ => [target; mask_key target]
  | Synapse _ target _ _ => [target; mask_key target]
  | ObjectInstance _ target _ => [target; mask_key target]
  | CenterInstance _ target (Some key) _ => [key; target; mask_key target]
  | CenterInstance _ target None _ => [target; mask_key target]
  end.

(** The sample after the assignments [sample[k] = v] of [kvs], in order. *)
Definition assigned (sample : Sample) (kvs : list (string * Volume)) : Sample :=
  fold_left (fun acc kv => setitem acc (fst kv) (snd kv)) kvs sample.

(** [kwargs['object_id'] if 'object_id' in kwargs else None]. *)
Definition object_id_of (kwargs : Kwargs) : PyObject :=
  if contains kwargs "object_id"
  then match getitem kwargs "object_id" with
       | Some o => o
       | None => PyNone
       end
  else PyNone.

(** Call parameters that can be passed by keyword: [self] and [sample]
    name the positional parameters of [__call__], and a call that passes
    one of them by keyword is refused before [__call__] runs. *)
Definition passable (kwargs : Kwargs) : Prop :=
  contains kwargs "self" = false /\ contains kwargs "sample" = false.

(** The transform does not rebalance: it assigns under the mask key of its
    target the mask that [extract] returned. *)
Definition keeps_mask (tf : Transform) : bool :=
  match tf with
  | Boundary _ _ rebalance => negb rebalance
  | Synapse _ _ rebalance _ => negb rebalance
  | ObjectInstance _ _ rebalance => negb rebalance
  | CenterInstance _ _ None rebalance => negb rebalance
  | _ => false
  end.

(** The computation assigns no key outside [ks]: every other entry is,
    after a return or a raise, what it was. *)
Definition writes_only {A : Type} (ks : list string) (m : M A) : Prop :=
  forall s, match m s with
            | Done _ s' | Fail _ s' => forall k, ~ In k ks -> getitem s' k = getitem s k
            end.

(** ** Statements on given kernels *)

Section Statements.
Variable K : Kernels.

(** The left-to-right fold of a sample through [tfs], every step with the
    same call parameters. *)
Definition fold_sample (tfs : list Transform) (sample : Sample) (kwargs : Kwargs)
  : outcome Sample :=
  fold_left (fun o tf => and_then o (fun sample' => call K tf sample' kwargs))
    tfs (Return sample).

(** Every transform of [tfs] was called, in order, each on the sample the
    previous one returned. *)
Inductive threaded (kwargs : Kwargs) : list Transform -> Sample -> Sample -> Prop :=
| threaded_nil sample : threaded kwargs [] sample sample
| threaded_cons tf tfs sample mid final :
    call K tf sample kwargs = Return mid ->
    threaded kwargs tfs mid final ->
    threaded kwargs (tf :: tfs) sample final.

(** The crop loop of [Affinity] stopped by a raise of [tf.crop]: the
    entries in front of the failing one hold their crops, the others are
    as they were. *)
Definition crop_interrupted (offset : Vec3) (size : option Vec3)
    (before : Sample) (e : Exn) (after : Sample) : Prop :=
  exists cropped_items k v rest cropped,
    before = cropped_items ++ (k, v) :: rest /\
    Forall2 (fun kv c => tf_crop K (snd kv) offset size = Ok c) cropped_items cropped /\
    tf_crop K v offset size = Error e /\
    after = crop_written before cropped_items cropped.

(** What a transform that raises can have left in the sample. *)
Definition left_at_raise (tf : Transform) (s : Sample) (e : Exn) (s' : Sample) : Prop :=
  match tf with
  | Segmentation _ target _ =>
      s' = s \/ exists v, s' = setitem s target v
  | CenterInstance source _ (Some key) _ =>
      s' = s \/
      exists seg m, subscript s source = Ok seg /\ center_mask seg = Ok m /\
                    s' = setitem s key m
  | Affinity _ _ target (Some offset) crop_size _ _ =>
      s' = s \/
      exists lbl msk,
        crop_interrupted offset crop_size
          (setitem (setitem s target lbl) (mask_key target) msk) e s'
  | _ => s' = s
  end.

(** The three offsets of the recompute block. *)
Definition axis_dsts : list Offset := [(0, 0, 1)%Z; (0, 1, 0)%Z; (1, 0, 0)%Z].

(** [v] induces the affinity graph of [seg]: the same spatial shape and
    the same affinities along the three axes (the round-trip closure of the
    specification, sections 3 and 8). *)
Definition graph_consistent (seg v : Volume) : Prop :=
  last3 (shape v) = last3 (shape seg) /\
  forall d, In d axis_dsts ->
    tf_affinitize K v (np_zeros (last3 (shape v))) d
    = tf_affinitize K seg (np_zeros (last3 (shape seg))) d.

(** What an in-place [Segmentation] needs of the kernels on a sample: the
    segmentation it emits induces the affinity graph of its source, and a
    mask already cast is left as it is by the cast. *)
Definition in_place_stable (sample : Sample) (source : string) : Prop :=
  forall seg msk r v m,
    extract sample source = Ok (seg, msk) ->
    recompute_components K seg = Ok r ->
    utils_check_volume K (astype_float32 r) = Ok v ->
    utils_check_volume K (astype_float32 msk) = Ok m ->
    graph_consistent seg v /\ utils_check_volume K (astype_float32 m) = Ok m.

End Statements.

(** ** Volumes of the concrete runs *)

(** A [2 x 2 x 2] segmentation: object 1 in the slab [z = 0], object 2 in
    the slab [z = 1]. *)
Definition halves : Volume := mkVolume [2; 2; 2] [1; 1; 1; 1; 2; 2; 2; 2]%Q.

(** The [4 x 4 x 4] volume of the specification's end-to-end scenario: IDs 1
    and 2, each filling a slab two voxels thick. *)
Definition slabs : Volume := mkVolume [4; 4; 4] (repeat 1%Q 32 ++ repeat 2%Q 32).

(** A segmentation with two leading indices. *)
Definition two_channels : Volume := mkVolume [2; 1; 1; 1] [1; 2]%Q.

(** ** A configuration file for the concrete runs *)

(** Three sections: [label] with a file, a shape and a transform, [image]
    with a file and two preprocessing lines of which the second is a tuple,
    and [empty] without options.  [with_shape] tells whether [label] holds
    the options [shape] and [filler]. *)
Definition demo_config (with_shape : bool) : ConfigParser :=
  mkConfigParser
    (fun section => String.eqb section "label" || String.eqb section "image"
                    || String.eqb section "empty")
    (fun section option =>
       (String.eqb section "label"
        && (String.eqb option "file" || String.eqb option "transform"
            || (with_shape && (String.eqb option "shape" || String.eqb option "filler"))))
       || (String.eqb section "image"
           && (String.eqb option "file" || String.eqb option "preprocess")))
    (fun section option =>
       if String.eqb option "file" then Got (section ++ ".h5")%string
       else if String.eqb option "transform" then Got "dict(type='affinitize')"
       else if String.eqb option "shape" then Got "(9,9,9)"
       else if String.eqb option "filler" then Got "dict(type='one')"
       else if String.eqb option "preprocess"
            then Got ("dict(type='standardize')" ++ String newline "(1,1,1)")%string
       else Raised (Foreign "NoOptionError")).

(** Stand-ins for the libraries: [eval] knows the literals of
    [demo_config], every file holds the volume [halves], and the tensor
    functions return their argument. *)
Definition demo_libraries : Libraries Volume :=
  mkLibraries Volume
    (fun s =>
       if String.eqb s "dict(type='affinitize')"
       then Got (VDict [(VStr "type", VStr "affinitize")])
       else if String.eqb s "dict(type='standardize')"
       then Got (VDict [(VStr "type", VStr "standardize")])
       else if String.eqb s "dict(type='one')"
       then Got (VDict [(VStr "type", VStr "one")])
       else if String.eqb s "(9,9,9)" then Got (VTuple [VInt 9; VInt 9; VInt 9])
       else if String.eqb s "(1,1,1)" then Got (VTuple [VInt 1; VInt 1; VInt 1])
       else Raised (Foreign "SyntaxError"))
    (fun path => Got halves)
    (fun shape filler => Got (np_zeros [9; 9; 9]))
    (fun data => Got data)
    (fun data pp => Got data)
    (fun data fov offset => Got data).

(** * Properties *)

(** ** Dictionaries *)

Section DictFacts.
Context {V : Type}.
Implicit Types (d : dict V) (key k : string) (v : V).

Lemma getitem_setitem_same d key v : getitem (setitem d key v) key = Some v.
Proof.
  induction d as [|[k x] d IH]; simpl.
  - now rewrite String.eqb_refl.
  - destruct (String.eqb k key) eqn:E; simpl; rewrite E; auto.
Qed.

Lemma getitem_setitem_other d key k v :
  key <> k -> getitem (setitem d key v) k = getitem d k.
Proof.
  intros Hne. induction d as [|[k0 x] d IH]; simpl.
  - destruct (String.eqb_spec key k); congruence.
  - destruct (String.eqb_spec k0 key) as [->|Hk]; simpl.
    + destruct (String.eqb_spec key k); congruence.
    + destruct (String.eqb_spec k0 k); auto.
Qed.

Lemma contains_setitem_same d key v : contains (setitem d key v) key = true.
Proof. unfold contains. now rewrite getitem_setitem_same. Qed.

Lemma contains_setitem_mono d key k v :
  contains d k = true -> contains (setitem d key v) k = true.
Proof.
  destruct (String.eqb_spec key k) as [->|Hne].
  - intros _. apply contains_setitem_same.
  - unfold contains. now rewrite getitem_setitem_other.
Qed.

Lemma contains_false_getitem d key : contains d key = false -> getitem d key = None.
Proof. unfold contains. destruct (getitem d key); congruence. Qed.

Lemma setitem_getitem_id d key v : getitem d key = Some v -> setitem d key v = d.
Proof.
  induction d as [|[k x] d IH]; simpl; [discriminate|].
  destruct (String.eqb_spec k key) as [->|Hk]; intros H.
  - congruence.
  - now rewrite IH.
Qed.

Lemma setitem_setitem_same d key v v' :
  setitem (setitem d key v) key v' = setitem d key v'.
Proof.
  induction d as [|[k x] d IH]; simpl.
  - now rewrite String.eqb_refl.
  - destruct (String.eqb k key) eqn:E; simpl; rewrite E; congruence.
Qed.

Lemma keys_setitem_present d key v :
  contains d key = true -> keys (setitem d key v) = keys d.
Proof.
  unfold contains. induction d as [|[k x] d IH]; simpl; [discriminate|].
  destruct (String.eqb_spec k key) as [->|Hk]; simpl; intros H; [reflexivity|].
  f_equal. now apply IH.
Qed.
End DictFacts.

(** ** The pipeline *)

Section PipelineFacts.
Variable K : Kernels.

Lemma fold_left_raise (tfs : list Transform) (kwargs : Kwargs) e s :
  fold_left (fun o tf => and_then o (fun sample' => call K tf sample' kwargs))
    tfs (Raise e s) = Raise e s.
Proof. induction tfs; simpl; auto. Qed.

Lemma run_fold tfs sample kwargs : run K tfs sample kwargs = fold_sample K tfs sample kwargs.
Proof.
  unfold fold_sample. revert sample.
  induction tfs as [|tf tfs IH]; intros sample; simpl; [reflexivity|].
  destruct (call K tf sample kwargs) as [mid|e s]; simpl.
  - apply IH.
  - now rewrite fold_left_raise.
Qed.

Lemma appended_from (tfs : list Transform) (self : Transformer) :
  fold_left (fun o tf => and_then o (fun self => append self (PyTransform tf)))
    tfs (Return self) = Return (mkTransformer (_transforms self ++ tfs)).
Proof.
  revert self. induction tfs as [|tf tfs IH]; intros self; simpl.
  - rewrite app_nil_r. now destruct self.
  - rewrite IH. simpl. now rewrite <- app_assoc.
Qed.

Lemma appended_transforms tfs : appended tfs = Return (mkTransformer tfs).
Proof. unfold appended. now rewrite appended_from. Qed.

Lemma run_threaded tfs kwargs sample final :
  run K tfs sample kwargs = Return final <-> threaded K kwargs tfs sample final.
Proof.
  revert sample. induction tfs as [|tf tfs IH]; intros sample; simpl.
  - split.
    + intros [= <-]. constructor.
    + intros H. inversion H. reflexivity.
  - split.
    + destruct (call K tf sample kwargs) as [mid|e s] eqn:E; simpl; [|discriminate].
      intros H. econstructor; [exact E|]. now apply IH.
    + intros H. inversion H as [|? ? ? mid ? Hc Ht]; subst.
      rewrite Hc. simpl. now apply IH.
Qed.

(** C10. A pipeline to which nothing was appended holds no transform and
    returns the sample it is given, whatever the kernels and the call
    parameters. *)
Theorem empty_pipeline_identity (sample : Sample) (kwargs : Kwargs) :
  _transforms Transformer_init = [] /\
  Transformer_call K Transformer_init sample kwargs = Return sample.
Proof.
  split.
  - reflexivity.
  - unfold Transformer_call. rewrite run_fold. reflexivity.
Qed.

(** C1. Calling the pipeline built by appending [tfs] is the left-to-right
    fold of the sample through [tfs] in insertion order with the same
    call parameters at every step; when it returns, every transform was
    called, none skipped. *)
Theorem pipeline_is_fold (tfs : list Transform) (sample : Sample) (kwargs : Kwargs) :
  exists self,
    appended tfs = Return self /\
    _transforms self = tfs /\
    Transformer_call K self sample kwargs = fold_sample K tfs sample kwargs /\
    (forall final,
        Transformer_call K self sample kwargs = Return final <->
        threaded K kwargs tfs sample final).
Proof.
  exists (mkTransformer tfs). repeat split.
  - apply appended_transforms.
  - apply run_fold.
  - unfold Transformer_call; simpl. apply run_threaded.
  - unfold Transformer_call; simpl. apply run_threaded.
Qed.

(** C7, as amended. Appending a value that is not a Transform raises the
    AssertionError of [assert isinstance(tf, Transform)], which is no
    TypeError, and the pipeline is left as it was, holding the transforms it
    held. *)
Theorem append_non_transform (self : Transformer) (o : PyObject) :
  isinstance_Transform o = false ->
  exists after,
    append self o = Raise (AssertionError IsInstanceTransform) after /\
    after = self /\
    _transforms after = _transforms self /\
    forall after', append self o <> Raise TypeError after'.
Proof.
  intros H. exists self.
  destruct o; simpl in *; try discriminate; repeat split; discriminate.
Qed.

(** C6, as amended. [extract] on a key that the sample does not hold
    raises the AssertionError of [assert key in sample], and no KeyError:
    the subscripts [sample[key]] behind the assertion are not reached. *)
Theorem extract_missing_key (sample : Sample) (key : string) :
  contains sample key = false ->
  extract sample key = Error (AssertionError (KeyInSample key)) /\
  forall k, extract sample key <> Error (KeyError k).
Proof.
  intros H. unfold extract. rewrite H. split; [reflexivity | discriminate].
Qed.

End PipelineFacts.

(** ** Computations on the sample *)

Section MonadFacts.

Lemma readonly_ret A (a : A) : readonly (ret a).
Proof. intros s. reflexivity. Qed.

Lemma readonly_lift A (r : Sample -> result A) : readonly (lift r).
Proof. intros s. unfold lift. now destruct (r s). Qed.

Lemma readonly_pure A (r : result A) : readonly (pure r).
Proof. apply readonly_lift. Qed.

Lemma readonly_bind A B (m : M A) (k : A -> M B) :
  readonly m -> (forall a, readonly (k a)) -> readonly (bind m k).
Proof.
  intros Hm Hk s. unfold bind. specialize (Hm s).
  destruct (m s) as [a s1|e s1]; subst; [apply Hk | reflexivity].
Qed.

Lemma never_fails_ret A (a : A) : never_fails (ret a).
Proof. intros s. now exists a, s. Qed.

Lemma never_fails_store key v : never_fails (store key v).
Proof. intros s. now exists tt, (setitem s key v). Qed.

Lemma never_fails_bind A B (m : M A) (k : A -> M B) :
  never_fails m -> (forall a, never_fails (k a)) -> never_fails (bind m k).
Proof.
  intros Hm Hk s. unfold bind. destruct (Hm s) as (a & s1 & ->). apply Hk.
Qed.

Lemma atomic_readonly A (m : M A) : readonly m -> atomic m.
Proof. intros H s e s' E. specialize (H s). now rewrite E in H. Qed.

Lemma atomic_never_fails A (m : M A) : never_fails m -> atomic m.
Proof. intros H s e s' E. destruct (H s) as (a & s1 & E1). congruence. Qed.

Lemma atomic_bind A B (m : M A) (k : A -> M B) :
  readonly m -> (forall a, atomic (k a)) -> atomic (bind m k).
Proof.
  intros Hm Hk s e s'. unfold bind. specialize (Hm s).
  destruct (m s) as [a s1|e1 s1]; subst.
  - apply Hk.
  - now intros [= _ <-].
Qed.

Lemma grows_readonly A (m : M A) : readonly m -> grows m.
Proof. intros H s. specialize (H s). destruct (m s); subst; auto. Qed.

Lemma grows_store key v : grows (store key v).
Proof. intros s k. apply contains_setitem_mono. Qed.

Lemma grows_bind A B (m : M A) (k : A -> M B) :
  grows m -> (forall a, grows (k a)) -> grows (bind m k).
Proof.
  intros Hm Hk s. unfold bind. specialize (Hm s).
  destruct (m s) as [a s1|e s1]; [|exact Hm].
  specialize (Hk a s1). destruct (k a s1); auto.
Qed.

Lemma ensures_bind A B (P : Sample -> Prop) (m : M A) (k : A -> M B) :
  (forall a, ensures P (k a)) -> ensures P (bind m k).
Proof.
  intros Hk s b s'. unfold bind. destruct (m s) as [a s1|e s1]; [|discriminate].
  apply Hk.
Qed.

Lemma ensures_store_store (k1 k2 : string) (v1 v2 : Volume) :
  ensures (holds k1 k2) (store k1 v1 ;; store k2 v2).
Proof.
  intros s a s'. unfold bind, store. intros E. injection E as _ <-. split.
  - apply contains_setitem_mono, contains_setitem_same.
  - apply contains_setitem_same.
Qed.

Lemma ensures_holds_then A B (k1 k2 : string) (m : M A) (k : A -> M B) :
  ensures (holds k1 k2) m -> (forall a, grows (k a)) ->
  ensures (holds k1 k2) (bind m k).
Proof.
  intros Hm Hk s b s'. unfold bind. destruct (m s) as [a s1|e s1] eqn:E; [|discriminate].
  intros E'. specialize (Hm _ _ _ E). specialize (Hk a s1). rewrite E' in Hk.
  destruct Hm. split; auto.
Qed.

Lemma ensures_store_store_then B (k1 k2 : string) (v1 v2 : Volume) (m : M B) :
  grows m -> ensures (holds k1 k2) (store k1 v1 ;; store k2 v2 ;; m).
Proof.
  intros Hm s b s'. unfold bind, store.
  specialize (Hm (setitem (setitem s k1 v1) k2 v2)).
  intros E. rewrite E in Hm. split; apply Hm.
  - apply contains_setitem_mono, contains_setitem_same.
  - apply contains_setitem_same.
Qed.

End MonadFacts.

Create HintDb sample_effects.

#[export] Hint Resolve readonly_ret readonly_lift readonly_pure never_fails_ret
  never_fails_store grows_store : sample_effects.
#[export] Hint Resolve atomic_readonly atomic_never_fails grows_readonly | 5 : sample_effects.

(** Goes under the binds of a computation, one step at a time. *)
Ltac step_effects :=
  repeat first
    [ progress (intros)
    | progress (cbv zeta)
    | match goal with
      | p : (_ * _)%type |- _ => destruct p
      | |- readonly (bind _ _) => apply readonly_bind
      | |- never_fails (bind _ _) => apply never_fails_bind
      | |- grows (bind _ _) => apply grows_bind
      | |- atomic (bind _ _) =>
          first [ apply atomic_bind; [solve [auto with sample_effects] | ]
                | apply atomic_never_fails ]
      | |- ensures _ (store _ _ ;; store _ _) => apply ensures_store_store
      | |- ensures _ (bind _ _) => apply ensures_bind
      end
    | solve [auto with sample_effects] ].

(** ** The transforms *)

Section TransformFacts.
Variable K : Kernels.

Lemma exec_return (m : M unit) s s' :
  exec m s = Return s' <-> m s = Done tt s'.
Proof.
  unfold exec. destruct (m s) as [[] s1|e s1]; split; congruence.
Qed.

Lemma exec_raise (m : M unit) s e s' :
  exec m s = Raise e s' <-> m s = Fail e s'.
Proof.
  unfold exec. destruct (m s) as [[] s1|e1 s1]; split; congruence.
Qed.

Lemma crop_items_grows offset size items : grows (crop_items K offset size items).
Proof.
  induction items as [|[k v] items IH]; simpl; step_effects.
Qed.

Lemma crop_loop_grows offset size :
  grows (fun sample => crop_items K offset size sample sample).
Proof. intros s. apply crop_items_grows. Qed.

#[local] Hint Resolve crop_loop_grows : sample_effects.

Lemma Boundary_grows source target rebalance :
  grows (Boundary_call K source target rebalance).
Proof. unfold Boundary_call. step_effects. Qed.

Lemma Segmentation_grows source target recompute :
  grows (Segmentation_call K source target recompute).
Proof. unfold Segmentation_call. step_effects. Qed.

Lemma Affinity_grows dst source target crop crop_size base_w recompute :
  grows (Affinity_call K dst source target crop crop_size base_w recompute).
Proof. unfold Affinity_call. step_effects. destruct crop; step_effects. Qed.

Lemma Semantic_grows ids source target rebalance :
  grows (Semantic_call K ids source target rebalance).
Proof. unfold Semantic_call. step_effects. Qed.

Lemma Synapse_grows source target rebalance base_w :
  grows (Synapse_call K source target rebalance base_w).
Proof. unfold Synapse_call. step_effects. Qed.

Lemma ObjectInstance_grows source target rebalance kwargs :
  grows (ObjectInstance_call K source target rebalance kwargs).
Proof. unfold ObjectInstance_call. step_effects. Qed.

Lemma CenterInstance_mask_grows source mask : grows (CenterInstance_mask source mask).
Proof. unfold CenterInstance_mask. destruct mask; step_effects. Qed.

Lemma CenterInstance_grows source target mask rebalance kwargs :
  grows (CenterInstance_call K source target mask rebalance kwargs).
Proof.
  unfold CenterInstance_call. apply grows_bind; intros.
  - apply CenterInstance_mask_grows.
  - apply ObjectInstance_grows.
Qed.

Lemma grows_exec (m : M unit) : grows m ->
  forall s, match exec m s with
            | Return s' | Raise _ s' => forall k, contains s k = true -> contains s' k = true
            end.
Proof. intros H s. specialize (H s). unfold exec. now destruct (m s). Qed.

(** No transform removes a key, whether it returns or raises. *)
Lemma call_grows tf sample kwargs :
  match call K tf sample kwargs with
  | Return s' | Raise _ s' => forall k, contains sample k = true -> contains s' k = true
  end.
Proof.
  destruct tf; simpl; auto; apply grows_exec;
    auto using Boundary_grows, Segmentation_grows, Affinity_grows, Semantic_grows,
      Synapse_grows, ObjectInstance_grows, CenterInstance_grows.
Qed.

Lemma Boundary_ensures source target rebalance :
  ensures (holds target (mask_key target)) (Boundary_call K source target rebalance).
Proof. unfold Boundary_call. step_effects. Qed.

Lemma Segmentation_ensures source target recompute :
  ensures (holds target (mask_key target)) (Segmentation_call K source target recompute).
Proof.
  unfold Segmentation_call.
  apply ensures_bind; intros [seg msk].
  do 2 (apply ensures_bind; intros ?).
  intros s u s1. unfold bind, store, pure, lift.
  destruct (utils_check_volume K _); [|discriminate].
  intros E. injection E as _ <-. split.
  - apply contains_setitem_mono, contains_setitem_same.
  - apply contains_setitem_same.
Qed.

Lemma Affinity_ensures dst source target crop crop_size base_w recompute :
  ensures (holds target (mask_key target))
    (Affinity_call K dst source target crop crop_size base_w recompute).
Proof.
  unfold Affinity_call.
  apply ensures_bind; intros [seg msk].
  apply ensures_bind; intros seg'.
  apply ensures_bind; intros [affs msks]. cbv zeta.
  apply ensures_bind; intros msk'.
  apply ensures_store_store_then. destruct crop; step_effects.
Qed.

Lemma Semantic_ensures ids source target rebalance :
  ensures (holds target (mask_key target)) (Semantic_call K ids source target rebalance).
Proof. unfold Semantic_call. step_effects. Qed.

Lemma Synapse_ensures source target rebalance base_w :
  ensures (holds target (mask_key target))
    (Synapse_call K source target rebalance base_w).
Proof. unfold Synapse_call. step_effects. Qed.

Lemma ObjectInstance_ensures source target rebalance kwargs :
  ensures (holds target (mask_key target))
    (ObjectInstance_call K source target rebalance kwargs).
Proof. unfold ObjectInstance_call. step_effects. Qed.

Lemma CenterInstance_ensures source target mask rebalance kwargs :
  ensures (holds target (mask_key target))
    (CenterInstance_call K source target mask rebalance kwargs).
Proof.
  unfold CenterInstance_call. apply ensures_bind. intros. apply ObjectInstance_ensures.
Qed.

(** A transform that returns has written its target key and the key of
    the companion mask. *)
Lemma call_writes_target tf sample kwargs s' target :
  call K tf sample kwargs = Return s' ->
  target_of tf = Some target ->
  holds target (mask_key target) s'.
Proof.
  destruct tf; simpl; try discriminate; intros E [= <-];
    apply exec_return in E;
    [ eapply Boundary_ensures | eapply Segmentation_ensures | eapply Affinity_ensures
    | eapply Semantic_ensures | eapply Synapse_ensures | eapply ObjectInstance_ensures
    | eapply CenterInstance_ensures ]; exact E.
Qed.

Lemma run_grows tfs sample kwargs s' :
  run K tfs sample kwargs = Return s' ->
  forall k, contains sample k = true -> contains s' k = true.
Proof.
  revert sample. induction tfs as [|tf tfs IH]; intros sample; simpl.
  - now intros [= <-].
  - pose proof (call_grows tf sample kwargs) as G.
    destruct (call K tf sample kwargs) as [mid|e s]; simpl; [|discriminate].
    intros E k Hk. eapply IH; eauto.
Qed.

(** C2. When every transform of a pipeline succeeds on a sample, the
    sample returned holds the target key of every transform of the
    pipeline, each with its companion key [target_mask]. *)
Theorem pipeline_targets_present (self : Transformer) (sample : Sample)
    (kwargs : Kwargs) (final : Sample) (tf : Transform) (target : string) :
  Transformer_call K self sample kwargs = Return final ->
  In tf (_transforms self) ->
  target_of tf = Some target ->
  contains final target = true /\ contains final (mask_key target) = true.
Proof.
  unfold Transformer_call. generalize (_transforms self) as tfs. intros tfs.
  revert sample. induction tfs as [|tf0 tfs IH]; intros sample; simpl; [tauto|].
  destruct (call K tf0 sample kwargs) as [mid|e s] eqn:E; simpl; [|discriminate].
  intros Hrun [->|Hin] Ht.
  - destruct (call_writes_target _ _ _ _ _ E Ht) as [H1 H2].
    split; eapply run_grows; eauto.
  - eapply IH; eauto.
Qed.

(** A pipeline removes no key from the sample: what the sample held before
    the call it holds after it, whether the call returns or raises. *)
Theorem pipeline_keeps_keys (self : Transformer) (sample : Sample) (kwargs : Kwargs) :
  match Transformer_call K self sample kwargs with
  | Return s' | Raise _ s' => forall k, contains sample k = true -> contains s' k = true
  end.
Proof.
  unfold Transformer_call. generalize (_transforms self) as tfs. intros tfs.
  revert sample. induction tfs as [|tf tfs IH]; intros sample; simpl; [auto|].
  pose proof (call_grows tf sample kwargs) as G.
  destruct (call K tf sample kwargs) as [mid|e s]; simpl; [|exact G].
  specialize (IH mid). destruct (run K tfs mid kwargs); auto.
Qed.

(** *** What a raise leaves in the sample *)

Lemma Boundary_atomic source target rebalance :
  atomic (Boundary_call K source target rebalance).
Proof. unfold Boundary_call. step_effects. Qed.

Lemma Semantic_atomic ids source target rebalance :
  atomic (Semantic_call K ids source target rebalance).
Proof. unfold Semantic_call. step_effects. Qed.

Lemma Synapse_atomic source target rebalance base_w :
  atomic (Synapse_call K source target rebalance base_w).
Proof. unfold Synapse_call. step_effects. Qed.

Lemma ObjectInstance_atomic source target rebalance kwargs :
  atomic (ObjectInstance_call K source target rebalance kwargs).
Proof. unfold ObjectInstance_call. step_effects. Qed.

Lemma Affinity_no_crop_atomic dst source target crop_size base_w recompute :
  atomic (Affinity_call K dst source target None crop_size base_w recompute).
Proof. unfold Affinity_call. step_effects. Qed.

(** [Segmentation] casts and writes the segmentation before it casts the
    mask: a raise of the second cast finds the target key written. *)
Lemma Segmentation_raise source target recompute s e s' :
  Segmentation_call K source target recompute s = Fail e s' ->
  s' = s \/ exists v, s' = setitem s target v.
Proof.
  unfold Segmentation_call, bind, pure, lift, store.
  destruct (extract s source) as [[seg msk]|e0]; [|intros [= _ <-]; auto].
  destruct (if recompute then recompute_components K seg else Ok seg) as [seg'|e0];
    [|intros [= _ <-]; auto].
  destruct (utils_check_volume K (astype_float32 seg')) as [v|e0];
    [|intros [= _ <-]; auto].
  destruct (utils_check_volume K (astype_float32 msk)) as [m|e0]; [discriminate|].
  intros [= _ <-]. right. now exists v.
Qed.

(** [CenterInstance] writes the mask key before the logic of
    [ObjectInstance] runs: a raise of the latter finds that key written. *)
Lemma CenterInstance_raise source target key rebalance kwargs s e s' :
  CenterInstance_call K source target (Some key) rebalance kwargs s = Fail e s' ->
  s' = s \/
  exists seg m, subscript s source = Ok seg /\ center_mask seg = Ok m /\
                s' = setitem s key m.
Proof.
  unfold CenterInstance_call, CenterInstance_mask.
  unfold bind at 1. unfold bind at 1. unfold lift at 1.
  destruct (subscript s source) as [seg|e0]; [|intros [= _ <-]; auto].
  unfold bind at 1. unfold pure at 1. unfold lift at 1.
  destruct (center_mask seg) as [m|e0] eqn:Em; [|intros [= _ <-]; auto].
  unfold store at 1. intros E.
  apply ObjectInstance_atomic in E. right. now exists seg, m.
Qed.

Lemma crop_items_raise offset size items s e s' :
  crop_items K offset size items s = Fail e s' ->
  exists cropped_items k v rest cropped,
    items = cropped_items ++ (k, v) :: rest /\
    Forall2 (fun kv c => tf_crop K (snd kv) offset size = Ok c) cropped_items cropped /\
    tf_crop K v offset size = Error e /\
    s' = crop_written s cropped_items cropped.
Proof.
  revert s. induction items as [|[k v] items IH]; intros s; simpl; [discriminate|].
  unfold bind at 1. unfold pure, lift.
  destruct (tf_crop K v offset size) as [c|e0] eqn:Ec.
  - unfold bind at 1. unfold store at 1. intros E.
    destruct (IH _ E) as (ci & k1 & v1 & rest & cs & -> & HF & He & ->).
    exists ((k, v) :: ci), k1, v1, rest, (c :: cs). repeat split; auto.
  - intros E. inversion E; subst. exists [], k, v, items, []. repeat split; auto.
Qed.

Lemma Affinity_crop_raise dst source target offset crop_size base_w recompute s e s' :
  Affinity_call K dst source target (Some offset) crop_size base_w recompute s
    = Fail e s' ->
  s' = s \/
  exists lbl msk,
    crop_interrupted K offset crop_size
      (setitem (setitem s target lbl) (mask_key target) msk) e s'.
Proof.
  unfold Affinity_call.
  unfold bind at 1. unfold lift at 1.
  destruct (extract s source) as [[seg msk]|e0]; [|intros [= _ <-]; auto].
  unfold bind at 1. unfold pure at 1. unfold lift at 1.
  destruct (if recompute then recompute_components K seg else Ok seg) as [seg'|e0];
    [|intros [= _ <-]; auto].
  unfold bind at 1. unfold pure at 1. unfold lift at 1.
  destruct (affinitize_channels K seg' msk (last3 (shape seg')) dst) as [[affs msks]|e0];
    [|intros [= _ <-]; auto].
  cbv zeta. unfold bind at 1. unfold pure at 1. unfold lift at 1.
  match goal with |- context [match ?r with Ok _ => _ | Error _ => _ end] =>
    destruct r as [msk'|e0] end; [|intros [= _ <-]; auto].
  unfold bind at 1. unfold store at 1. unfold bind at 1. unfold store at 1.
  intros E. apply crop_items_raise in E. right.
  exists (np_stack (last3 (shape seg')) affs), msk'. exact E.
Qed.

Lemma call_raise (tf : Transform) (sample : Sample) (kwargs : Kwargs)
    (e : Exn) (s' : Sample) :
  call K tf sample kwargs = Raise e s' ->
  left_at_raise K tf sample e s'.
Proof.
  destruct tf as [| | | ? ? ? [offset|] | | | | ? ? [key|] ]; simpl;
    try (intros [= _ <-]; reflexivity); intros E; apply exec_raise in E.
  - eapply Boundary_atomic; eauto.
  - eapply Segmentation_raise; eauto.
  - eapply Affinity_crop_raise; eauto.
  - eapply Affinity_no_crop_atomic; eauto.
  - eapply Semantic_atomic; eauto.
  - eapply Synapse_atomic; eauto.
  - eapply ObjectInstance_atomic; eauto.
  - eapply CenterInstance_raise; eauto.
  - revert E. unfold CenterInstance_call, CenterInstance_mask, bind at 1, ret.
    apply ObjectInstance_atomic.
Qed.

(** C5, as amended.  A transform that returns has written its target key
    and the key of the companion mask.  A transform that raises leaves the
    sample unchanged, except that [Segmentation] may have written its target
    key alone, [CenterInstance] with a mask key may have written that key
    alone, and [Affinity] with a crop may have written its two keys and
    cropped the entries in front of the one on which [tf.crop] raised. *)
Theorem transform_outcome (tf : Transform) (sample : Sample) (kwargs : Kwargs) :
  match call K tf sample kwargs with
  | Return s' =>
      forall target, target_of tf = Some target -> holds target (mask_key target) s'
  | Raise e s' => left_at_raise K tf sample e s'
  end.
Proof.
  destruct (call K tf sample kwargs) as [s'|e s'] eqn:E.
  - intros target Ht. exact (call_writes_target tf sample kwargs s' target E Ht).
  - exact (call_raise tf sample kwargs e s' E).
Qed.

End TransformFacts.

(** ** Arrays: indices in C order *)

Section ArrayFacts.

Lemma size_of_app (a b : list nat) : size_of (a ++ b) = size_of a * size_of b.
Proof.
  unfold size_of. induction a as [|n a IH]; simpl; [lia|]. rewrite IH. lia.
Qed.

Lemma size_of_3 (z y x : nat) : size_of [z; y; x] = z * y * x.
Proof. unfold size_of; simpl. lia. Qed.

Lemma last3_app (lead : list nat) (z y x : nat) : last3 (lead ++ [z; y; x]) = [z; y; x].
Proof.
  unfold last3. rewrite length_app. simpl.
  replace (length lead + 3 - 3) with (length lead + 0) by lia.
  rewrite skipn_app, Nat.add_0_r, skipn_all, Nat.sub_diag. reflexivity.
Qed.

Lemma leading_app (lead : list nat) (z y x : nat) : leading (lead ++ [z; y; x]) = lead.
Proof.
  unfold leading. rewrite length_app. simpl.
  replace (length lead + 3 - 3) with (length lead + 0) by lia.
  rewrite firstn_app, Nat.add_0_r, firstn_all.
  replace (length lead - length lead) with 0 by lia. simpl. apply app_nil_r.
Qed.

Lemma offset3_lt (z y x i j k : nat) :
  i < z -> j < y -> k < x -> offset3 y x i j k < z * y * x.
Proof.
  unfold offset3. intros Hi Hj Hk.
  assert (i * y + j + 1 <= z * y) as H1 by nia.
  apply Nat.mul_le_mono_r with (p := x) in H1. nia.
Qed.

Lemma mul_add_inj (x a k a' k' : nat) :
  k < x -> k' < x -> a * x + k = a' * x + k' -> a = a' /\ k = k'.
Proof.
  intros Hk Hk' E.
  assert (a = a') as ->.
  { destruct (Nat.lt_trichotomy a a') as [L|[E'|L]]; auto; exfalso.
    - assert ((a + 1) * x <= a' * x) as H by (apply Nat.mul_le_mono_r; lia).
      rewrite Nat.mul_add_distr_r, Nat.mul_1_l in H. lia.
    - assert ((a' + 1) * x <= a * x) as H by (apply Nat.mul_le_mono_r; lia).
      rewrite Nat.mul_add_distr_r, Nat.mul_1_l in H. lia. }
  split; [reflexivity | lia].
Qed.

Lemma offset3_inj (y x i j k i' j' k' : nat) :
  j < y -> k < x -> j' < y -> k' < x ->
  offset3 y x i j k = offset3 y x i' j' k' -> i = i' /\ j = j' /\ k = k'.
Proof.
  unfold offset3. intros Hj Hk Hj' Hk' E.
  apply mul_add_inj in E; try assumption. destruct E as [E1 ->].
  apply mul_add_inj in E1; try assumption. tauto.
Qed.

Lemma block_mod (n c off : nat) : off < n -> (c * n + off) mod n = off.
Proof.
  intros H. rewrite Nat.add_comm, Nat.Div0.mod_add. now apply Nat.mod_small.
Qed.

Lemma block_index_lt (n m c off : nat) : c < m -> off < n -> c * n + off < m * n.
Proof. intros. nia. Qed.

Lemma nth_map_in {A B : Type} (f : A -> B) (l : list A) (p : nat) (d : B) (d' : A) :
  p < length l -> nth p (map f l) d = f (nth p l d').
Proof.
  revert p. induction l as [|a l IH]; intros [|p]; simpl; intros H; try lia; auto.
  apply IH. lia.
Qed.

Lemma flat_tabulate (sh : list nat) (f : nat -> Q) (n p : nat) :
  p < n -> flat (mkVolume sh (map f (seq 0 n))) p = f p.
Proof.
  intros H. unfold flat; simpl.
  rewrite nth_map_in with (d' := 0) by (now rewrite length_seq).
  now rewrite seq_nth.
Qed.

Lemma setitem_last3_zeros_data (sh : list nat) (z y x i j k : nat) (a : Q) :
  data (setitem_last3 (np_zeros sh) z y x i j k a)
  = map (fun p => if p mod (z * y * x) =? offset3 y x i j k then a else 0%Q)
        (seq 0 (size_of sh)).
Proof.
  unfold setitem_last3, np_zeros; simpl. rewrite repeat_length.
  generalize (size_of sh) as n. intros n. generalize 0 as start.
  induction n as [|n IH]; intros start; simpl; [reflexivity|].
  now rewrite IH.
Qed.

Lemma flat_setitem_last3_zeros (sh : list nat) (z y x i j k p : nat) (a : Q) :
  p < size_of sh ->
  flat (setitem_last3 (np_zeros sh) z y x i j k a) p
  = if p mod (z * y * x) =? offset3 y x i j k then a else 0%Q.
Proof.
  intros H. unfold flat. rewrite setitem_last3_zeros_data.
  now apply (flat_tabulate [] (fun p => if p mod (z * y * x) =? offset3 y x i j k then a else 0%Q)).
Qed.

End ArrayFacts.

(** ** binary32: a cast value is left as it is by the cast *)

Section Binary32Facts.
Local Open Scope Z_scope.

Lemma round_half_even_exact (k d : Z) : 0 < d -> round_half_even (k * d) d = k.
Proof.
  intros Hd. unfold round_half_even.
  rewrite Z.mod_mul by lia. rewrite Z.div_mul by lia.
  destruct (Z.compare_spec (2 * 0) d); lia.
Qed.

Lemma round_half_even_bounds (n d : Z) :
  0 < d -> n / d <= round_half_even n d <= n / d + 1.
Proof.
  intros Hd. unfold round_half_even.
  destruct (2 * (n mod d) ?= d); try lia. destruct (Z.even (n / d)); lia.
Qed.

(** The significand and the exponent of a rounding. *)
Lemma rounding_bounds (n d : Z) :
  0 <= n -> 0 < d ->
  let e := Z.max (Z.log2 (n / d) - 23) 0 in
  let m := round_half_even n (d * 2 ^ e) in
  0 <= e /\ 0 <= m <= 2 ^ 24 /\ (e = 0 \/ 2 ^ 23 <= m).
Proof.
  intros Hn Hd e m.
  assert (0 <= e) as He by (unfold e; lia).
  assert (0 < 2 ^ e) as Hp by (apply Z.pow_pos_nonneg; lia).
  assert (0 < d * 2 ^ e) as Hde by lia.
  pose proof (round_half_even_bounds n (d * 2 ^ e) Hde) as Hb. fold m in Hb.
  assert (n / (d * 2 ^ e) = n / d / 2 ^ e) as Hdiv by (rewrite Z.div_div; lia).
  rewrite Hdiv in Hb.
  assert (0 <= n / d) as Hq by (apply Z.div_pos; lia).
  split; [exact He|].
  destruct (Z.eq_dec (n / d) 0) as [Hz|Hz].
  - assert (e = 0) as E0 by (unfold e; rewrite Hz; simpl; lia).
    rewrite E0, Hz in Hb. simpl in Hb. rewrite Z.div_0_l in Hb by lia.
    split; [|now left]. assert (1 <= 2 ^ 24) by (apply Z.pow_le_mono_r with (b := 0); lia || lia). lia.
  - assert (0 < n / d) as Hpos by lia.
    pose proof (Z.log2_spec (n / d) Hpos) as [Hl Hu].
    destruct (Z.le_gt_cases (Z.log2 (n / d)) 23) as [Hsmall|Hbig].
    + assert (e = 0) as E0 by (unfold e; lia).
      rewrite E0 in Hb. rewrite Z.pow_0_r, Z.div_1_r in Hb.
      split; [|now left].
      assert (2 ^ Z.succ (Z.log2 (n / d)) <= 2 ^ 24) by (apply Z.pow_le_mono_r; lia).
      lia.
    + assert (e = Z.log2 (n / d) - 23) as Ee by (unfold e; lia).
      assert (Z.log2 (n / d) = e + 23) as El by lia.
      rewrite El in Hl, Hu.
      replace (Z.succ (e + 23)) with (24 + e) in Hu by lia.
      rewrite Z.pow_add_r in Hl, Hu by lia.
      assert (2 ^ 23 <= n / d / 2 ^ e) as H1.
      { apply Z.div_le_lower_bound; lia. }
      assert (n / d / 2 ^ e < 2 ^ 24) as H2.
      { apply Z.div_lt_upper_bound; lia. }
      split; [lia | right; lia].
Qed.

(** A multiple [z * 2^-149] whose significand has 24 bits is left as it is. *)
Lemma rounding_fixed (m e : Z) (n : Z) (d : positive) :
  0 <= e -> 0 <= m <= 2 ^ 24 -> (e = 0 \/ 2 ^ 23 <= m) ->
  Z.abs n * 2 ^ 149 = m * 2 ^ e * Zpos d ->
  let N := Z.abs n * 2 ^ 149 in
  let e' := Z.max (Z.log2 (N / Zpos d) - 23) 0 in
  round_half_even N (Zpos d * 2 ^ e') * 2 ^ e' = m * 2 ^ e.
Proof.
  intros He Hm Hnorm HN. cbv zeta.
  remember (Z.abs n * 2 ^ 149) as N eqn:EN.
  assert (0 < 2 ^ e) as Hp by (apply Z.pow_pos_nonneg; lia).
  assert (N / Zpos d = m * 2 ^ e) as Hq.
  { rewrite HN. apply Z.div_mul. lia. }
  rewrite Hq.
  remember (Z.max (Z.log2 (m * 2 ^ e) - 23) 0) as e' eqn:Ee'.
  assert (0 <= e') as He' by lia.
  assert (0 < 2 ^ e') as Hp' by (apply Z.pow_pos_nonneg; lia).
  assert (exists k, m * 2 ^ e = k * 2 ^ e') as [k Hk].
  { destruct (Z.eq_dec m 0) as [->|Hm0].
    - exists 0. lia.
    - assert (0 < m) as Hmpos by lia.
      assert (Z.log2 (m * 2 ^ e) = Z.log2 m + e) as Hlog.
      { rewrite <- Z.shiftl_mul_pow2 by lia. apply Z.log2_shiftl; lia. }
      destruct (Z.eq_dec m (2 ^ 24)) as [->|Hne].
      + assert (e' = e + 1) as Ee.
        { rewrite Ee', Hlog. rewrite Z.log2_pow2 by lia. lia. }
        rewrite Ee. exists (2 ^ 23). rewrite Z.pow_add_r by lia.
        change (2 ^ 24) with (2 ^ 23 * 2). change (2 ^ 1) with 2. ring.
      + assert (Z.log2 m <= 23) as Hl.
        { assert (m < 2 ^ 24) by lia.
          apply Z.log2_lt_pow2 in H; lia. }
        destruct Hnorm as [->|Hge].
        * assert (e' = 0) as Ee by (rewrite Ee', Hlog; lia).
          rewrite Ee. exists m. reflexivity.
        * assert (23 <= Z.log2 m) by (apply Z.log2_le_pow2; lia).
          assert (e' = e) as Ee by (rewrite Ee', Hlog; lia).
          rewrite Ee. exists m. reflexivity. }
  assert (N = k * (Zpos d * 2 ^ e')) as ->.
  { rewrite HN, Hk. ring. }
  rewrite round_half_even_exact by lia. lia.
Qed.



Lemma float32_round_form (q : Q) :
  exists z m e,
    float32_round q = Qred (z # 2 ^ 149) /\
    (0 <= e)%Z /\ (0 <= m <= 2 ^ 24)%Z /\ (e = 0 \/ 2 ^ 23 <= m)%Z /\
    Z.abs z = (m * 2 ^ e)%Z.
Proof.
  unfold float32_round.
  set (n := (Z.abs (Qnum q) * 2 ^ 149)%Z).
  set (d := Zpos (Qden q)).
  destruct (rounding_bounds n d) as (He & Hm & Hnorm); [unfold n; lia | unfold d; lia |].
  remember (Z.max (Z.log2 (n / d) - 23) 0) as e eqn:Ee.
  remember (round_half_even n (d * 2 ^ e)) as m eqn:Em.
  exists (Z.sgn (Qnum q) * m * 2 ^ e)%Z, m, e.
  split; [reflexivity|]. repeat split; try lia; try assumption.
  assert (0 < 2 ^ e)%Z as Hp by (apply Z.pow_pos_nonneg; lia).
  rewrite !Z.abs_mul. rewrite (Z.abs_eq m) by lia. rewrite (Z.abs_eq (2 ^ e)) by lia.
  destruct (Z.eq_dec (Qnum q) 0) as [E0|E0].
  - assert (m = 0%Z) as ->.
    { rewrite Em. unfold n. rewrite E0. simpl (Z.abs 0 * _)%Z.
      apply (round_half_even_exact 0). unfold d. lia. }
    lia.
  - assert (Z.abs (Z.sgn (Qnum q)) = 1%Z) as -> by (destruct (Qnum q); simpl; lia).
    lia.
Qed.

Lemma float32_round_idem (q : Q) : float32_round (float32_round q) = float32_round q.
Proof.
  destruct (float32_round_form q) as (z & m & e & Hq & He & Hm & Hnorm & Hz).
  rewrite Hq.
  pose proof (Qred_correct (z # 2 ^ 149)) as Hr.
  remember (Qred (z # 2 ^ 149)) as r eqn:Er.
  unfold Qeq in Hr. simpl in Hr. rewrite Pos2Z.inj_pow in Hr.
  assert (Z.sgn (Qnum r) = Z.sgn z) as Hs.
  { apply (f_equal Z.sgn) in Hr. rewrite !Z.sgn_mul in Hr.
    rewrite (Z.sgn_pos (Zpos (Qden r))) in Hr by lia.
    rewrite (Z.sgn_pos (2 ^ 149)) in Hr by (apply Z.pow_pos_nonneg; lia). lia. }
  assert (Z.abs (Qnum r) * 2 ^ 149 = m * 2 ^ e * Zpos (Qden r))%Z as Ha.
  { rewrite <- Hz. apply (f_equal Z.abs) in Hr. rewrite !Z.abs_mul in Hr.
    rewrite (Z.abs_eq (Zpos (Qden r))) in Hr by lia.
    rewrite (Z.abs_eq (2 ^ 149)) in Hr by (apply Z.pow_nonneg; lia). exact Hr. }
  pose proof (rounding_fixed m e (Qnum r) (Qden r) He Hm Hnorm Ha) as Hf.
  cbv zeta in Hf.
  unfold float32_round. rewrite <- Z.mul_assoc, Hf, Hs, <- Hz.
  replace (Z.sgn z * Z.abs z)%Z with z
    by (rewrite Z.mul_comm; symmetry; apply Z.abs_sgn).
  symmetry. exact Er.
Qed.

Lemma astype_float32_idem (v : Volume) :
  astype_float32 (astype_float32 v) = astype_float32 v.
Proof.
  unfold astype_float32; simpl. f_equal. rewrite map_map.
  apply map_ext. intros q. apply float32_round_idem.
Qed.

End Binary32Facts.

(** ** CenterInstance *)

Section CenterInstanceFacts.
Variable K : Kernels.

Lemma center_mask_value (seg : Volume) (lead : list nat) (z y x : nat) :
  shape seg = lead ++ [z; y; x] -> 0 < z -> 0 < y -> 0 < x ->
  center_mask seg
  = Ok (setitem_last3 (np_zeros (shape seg)) z y x (z / 2) (y / 2) (x / 2) 1%Q).
Proof.
  intros Hs Hz Hy Hx. unfold center_mask. rewrite Hs, last3_app.
  destruct z, y, x; try lia. reflexivity.
Qed.

(** C9, as amended.  With a mask key configured and a source of shape
    [lead + (z, y, x)] with [z, y, x > 0], [CenterInstance] first writes
    under the mask key an array [m] of the shape of the source and then
    runs the logic of [ObjectInstance] on the sample so extended.  In every
    leading index [c], [m] is 1.0 at the centre [(z//2, y//2, x//2)] and 0
    at all other voxels: a single 1.0 when the source has one leading index
    (a 3-D source, or one channel). *)
Theorem center_instance_mask (source target key : string) (rebalance : bool)
    (kwargs : Kwargs) (sample : Sample) (seg : Volume) (lead : list nat) (z y x : nat) :
  subscript sample source = Ok seg ->
  shape seg = lead ++ [z; y; x] -> 0 < z -> 0 < y -> 0 < x ->
  exists m,
    center_mask seg = Ok m /\
    call K (CenterInstance source target (Some key) rebalance) sample kwargs
    = call K (ObjectInstance source target rebalance) (setitem sample key m) kwargs /\
    shape m = shape seg /\
    length (data m) = size_of (shape seg) /\
    forall c i j k, c < size_of lead -> i < z -> j < y -> k < x ->
      at4 m z y x c i j k
      = if (i =? z / 2) && (j =? y / 2) && (k =? x / 2) then 1%Q else 0%Q.
Proof.
  intros Hsub Hs Hz Hy Hx.
  eexists. split; [eapply center_mask_value; eauto|].
  split; [|split; [|split]].
  - simpl. unfold CenterInstance_call, CenterInstance_mask, exec.
    unfold bind at 1 2 3. unfold lift at 1. rewrite Hsub.
    unfold pure at 1. unfold lift at 1.
    rewrite (center_mask_value _ _ _ _ _ Hs Hz Hy Hx). reflexivity.
  - reflexivity.
  - rewrite setitem_last3_zeros_data. now rewrite length_map, length_seq.
  - intros c i j k Hc Hi Hj Hk. unfold at4.
    pose proof (offset3_lt z y x i j k Hi Hj Hk) as Hoff.
    rewrite flat_setitem_last3_zeros.
    + rewrite block_mod by assumption.
      assert (z / 2 < z) by (apply Nat.div_lt; lia).
      assert (y / 2 < y) by (apply Nat.div_lt; lia).
      assert (x / 2 < x) by (apply Nat.div_lt; lia).
      destruct (Nat.eqb_spec (offset3 y x i j k) (offset3 y x (z / 2) (y / 2) (x / 2)))
        as [E|E].
      * apply offset3_inj in E; try assumption. destruct E as (-> & -> & ->).
        now rewrite !Nat.eqb_refl.
      * destruct ((i =? z / 2) && (j =? y / 2) && (k =? x / 2)) eqn:B; [|reflexivity].
        apply andb_prop in B. destruct B as [B Bk].
        apply andb_prop in B. destruct B as [Bi Bj].
        apply Nat.eqb_eq in Bi, Bj, Bk. subst. congruence.
    + rewrite Hs, size_of_app, size_of_3. now apply block_index_lt.
Qed.

End CenterInstanceFacts.

(** ** ObjectInstance *)

Section ObjectInstanceFacts.
Variable K : Kernels.

Lemma string_length_append (a b : string) :
  String.length (a ++ b)%string = String.length a + String.length b.
Proof. induction a as [|c a IH]; simpl; auto. Qed.

Lemma mask_key_neq (key : string) : mask_key key <> key.
Proof.
  unfold mask_key. intros E. apply (f_equal String.length) in E.
  rewrite string_length_append in E. simpl in E. lia.
Qed.

Lemma extract_value (sample : Sample) (key : string) (v msk : Volume) :
  extract sample key = Ok (v, msk) -> getitem sample key = Some v.
Proof.
  unfold extract, subscript, contains.
  destruct (getitem sample key) as [v0|]; [|discriminate].
  destruct (getitem sample (mask_key key)); simpl; congruence.
Qed.

Lemma binarize_object_flat (seg : Volume) (o : PyObject) (p : nat) :
  p < length (data seg) ->
  nth p (map (fun v => if SpecKernels.carries v o then 1%Q else 0%Q) (data seg)) 0%Q
  = if SpecKernels.carries (flat seg p) o then 1%Q else 0%Q.
Proof.
  intros H. unfold flat.
  now rewrite nth_map_in with (d' := 0%Q).
Qed.

(** C8.  With [binarize_object] as the specification describes it,
    [ObjectInstance] on a source of shape [lead + (z, y, x)] writes under
    its target key a label of the shape of the source that is 1.0 on the
    voxels whose value equals the target ID and 0 on all others.  The
    target ID is the call parameter [object_id] when a number is supplied;
    when the parameter is absent (or None) it is the value of the source at
    its centre voxel [(z//2, y//2, x//2)]; a parameter that is no number is
    the ID of no voxel. *)
Theorem object_instance_label (source target : string) (rebalance : bool)
    (kwargs : Kwargs) (sample final : Sample) (seg : Volume)
    (lead : list nat) (z y x : nat) :
  tf_binarize_object K = SpecKernels.binarize_object ->
  getitem sample source = Some seg ->
  shape seg = lead ++ [z; y; x] ->
  call K (ObjectInstance source target rebalance) sample kwargs = Return final ->
  exists lbl,
    getitem final target = Some lbl /\
    shape lbl = shape seg /\
    length (data lbl) = length (data seg) /\
    forall p, p < length (data seg) ->
      flat lbl p
      = match getitem kwargs "object_id" with
        | Some (PyNum id) => if Qeq_bool (flat seg p) id then 1%Q else 0%Q
        | Some PyNone | None =>
            if Qeq_bool (flat seg p) (at4 seg z y x 0 (z / 2) (y / 2) (x / 2))
            then 1%Q else 0%Q
        | Some _ => 0%Q
        end.
Proof.
  intros HK Hseg Hshape Hcall. simpl in Hcall. apply exec_return in Hcall.
  revert Hcall. unfold ObjectInstance_call.
  unfold bind at 1. unfold lift at 1.
  destruct (extract sample source) as [[seg' msk]|e] eqn:Ex; [|discriminate].
  apply extract_value in Ex. assert (seg' = seg) as -> by congruence.
  cbv zeta. unfold bind at 1. unfold pure at 1. unfold lift at 1.
  rewrite HK. unfold SpecKernels.binarize_object.
  unfold bind at 1. unfold pure at 1. unfold lift at 1.
  match goal with |- context [match ?r with Ok _ => _ | Error _ => _ end] =>
    destruct r as [msk'|e] end; [|discriminate].
  unfold bind, store. intros E. injection E as <-.
  eexists. split; [|split; [|split]].
  - rewrite getitem_setitem_other by apply mask_key_neq.
    apply getitem_setitem_same.
  - reflexivity.
  - simpl. apply length_map.
  - intros p Hp. unfold flat at 1. simpl.
    rewrite binarize_object_flat by assumption.
    assert (SpecKernels.center_id seg = at4 seg z y x 0 (z / 2) (y / 2) (x / 2)) as Hc.
    { unfold SpecKernels.center_id, SpecKernels.spatial, at4.
      rewrite Hshape, last3_app. reflexivity. }
    unfold contains, SpecKernels.target_id, SpecKernels.carries.
    destruct (getitem kwargs "object_id") as [[]|]; rewrite ?Hc; reflexivity.
Qed.

End ObjectInstanceFacts.

(** ** Affinity: the crop of the whole sample *)

Section CropFacts.
Variable K : Kernels.

Lemma keys_app {V : Type} (a b : dict V) : keys (a ++ b) = keys a ++ keys b.
Proof. apply map_app. Qed.

Lemma setitem_app_fresh {V : Type} (pre rest : dict V) (k : string) (v c : V) :
  ~ In k (keys pre) ->
  setitem (pre ++ (k, v) :: rest) k c = pre ++ (k, c) :: rest.
Proof.
  induction pre as [|[k0 x] pre IH]; simpl; intros H.
  - now rewrite String.eqb_refl.
  - destruct (String.eqb_spec k0 k) as [->|Hne]; [tauto|].
    rewrite IH; tauto.
Qed.

Lemma setitem_wf {V : Type} (d : dict V) (key : string) (v : V) :
  dict_wf d -> dict_wf (setitem d key v).
Proof.
  unfold dict_wf. destruct (contains d key) eqn:C.
  - now rewrite keys_setitem_present.
  - induction d as [|[k x] d IH]; simpl; intros H.
    + constructor; [tauto | constructor].
    + unfold contains in C. simpl in C.
      destruct (String.eqb_spec k key) as [->|Hne]; [discriminate|].
      inversion H as [|? ? Hnin Hnd]; subst. simpl. constructor.
      * intros Hin. apply Hnin.
        clear - Hin Hne. induction d as [|[k1 x1] d IH]; simpl in *.
        -- destruct Hin as [->|[]]. congruence.
        -- destruct (String.eqb_spec k1 key) as [->|]; simpl in *; tauto.
      * apply IH; auto.
Qed.

(** Cropping every entry of a well-formed dictionary in the order of the
    loop gives the dictionary of the crops, key by key. *)
Lemma crop_written_all (pre items : Sample) (cropped : list Volume) :
  dict_wf (pre ++ items) -> length cropped = length items ->
  crop_written (pre ++ items) items cropped = pre ++ combine (keys items) cropped.
Proof.
  unfold crop_written, dict_wf. revert pre cropped.
  induction items as [|[k v] items IH]; intros pre [|c cs]; simpl; try discriminate;
    intros Hwf Hlen.
  - reflexivity.
  - rewrite setitem_app_fresh.
    + change (pre ++ (k, c) :: items) with (pre ++ [(k, c)] ++ items).
      rewrite app_assoc, IH.
      * now rewrite <- app_assoc.
      * rewrite <- app_assoc. simpl. rewrite keys_app in *. exact Hwf.
      * lia.
    + rewrite keys_app in Hwf. simpl in Hwf. apply NoDup_remove_2 in Hwf.
      intros Hin. apply Hwf, in_or_app. now left.
Qed.

Lemma crop_items_done offset size items s s' :
  crop_items K offset size items s = Done tt s' ->
  exists cropped,
    Forall2 (fun kv c => tf_crop K (snd kv) offset size = Ok c) items cropped /\
    s' = crop_written s items cropped.
Proof.
  revert s. induction items as [|[k v] items IH]; intros s; simpl.
  - intros E. injection E as <-. now exists [].
  - unfold bind at 1. unfold pure, lift.
    destruct (tf_crop K v offset size) as [c|e] eqn:Ec; [|discriminate].
    unfold bind at 1. unfold store at 1. intros E.
    destruct (IH _ E) as (cs & HF & ->). exists (c :: cs). split; auto.
Qed.

Lemma getitem_combine_crops (items : Sample) (cropped : list Volume)
    (f : Volume -> result Volume) (key : string) (v : Volume) :
  Forall2 (fun kv c => f (snd kv) = Ok c) items cropped ->
  getitem items key = Some v ->
  exists c, f v = Ok c /\ getitem (combine (keys items) cropped) key = Some c.
Proof.
  induction 1 as [|[k x] c items cs Hc HF IH]; simpl; [discriminate|].
  destruct (String.eqb k key).
  - intros [= <-]. now exists c.
  - exact IH.
Qed.

Lemma keys_combine (ks : list string) (cs : list Volume) :
  length cs = length ks -> keys (combine ks cs) = ks.
Proof.
  revert cs. induction ks as [|k ks IH]; intros [|c cs]; simpl; try discriminate; auto.
  intros H. f_equal. apply IH. lia.
Qed.

(** The sample that [Affinity] returns with a crop is the one it returns
    without, every entry replaced by its crop. *)
Lemma Affinity_crop_return dst source target offset size base_w recompute
    (sample final : Sample) (kwargs : Kwargs) :
  dict_wf sample ->
  call K (Affinity dst source target (Some offset) size base_w recompute) sample kwargs
    = Return final ->
  exists uncropped,
    call K (Affinity dst source target None size base_w recompute) sample kwargs
      = Return uncropped /\
    keys final = keys uncropped /\
    forall key v, getitem uncropped key = Some v ->
      exists c, tf_crop K v offset size = Ok c /\ getitem final key = Some c.
Proof.
  intros Hwf. simpl. unfold exec, Affinity_call, bind, pure, lift, store, ret.
  destruct (extract sample source) as [[seg msk]|e]; [|discriminate].
  destruct (if recompute then recompute_components K seg else Ok seg) as [seg'|e];
    [|discriminate].
  destruct (affinitize_channels K seg' msk (last3 (shape seg')) dst) as [[affs msks]|e];
    [|discriminate].
  match goal with |- context [match ?r with Ok _ => _ | Error _ => _ end] =>
    destruct r as [msk'|e] end; [|discriminate].
  set (u := setitem (setitem sample target (np_stack (last3 (shape seg')) affs))
              (mask_key target) msk').
  assert (dict_wf u) as Hu by (unfold u; auto using setitem_wf).
  destruct (crop_items K offset size u u) as [[] s1|e s1] eqn:E; [|discriminate].
  intros [= <-]. exists u. split; [reflexivity|].
  apply crop_items_done in E. destruct E as (cs & HF & ->).
  pose proof (Forall2_length HF) as Hlen.
  pose proof (crop_written_all [] u cs Hu (eq_sym Hlen)) as Hall.
  simpl in Hall. rewrite Hall.
  split.
  - apply keys_combine. unfold keys. rewrite length_map. lia.
  - intros key v Hv.
    apply (getitem_combine_crops u cs (fun v => tf_crop K v offset size) key v HF Hv).
Qed.

End CropFacts.

Section CropValues.
Variable K : Kernels.

Lemma block_decode (sz sy sx ch i j k : nat) :
  i < sz -> j < sy -> k < sx ->
  let p := ch * (sz * sy * sx) + offset3 sy sx i j k in
  p / (sz * sy * sx) = ch /\
  (p / (sy * sx)) mod sz = i /\
  (p / sx) mod sy = j /\
  p mod sx = k.
Proof.
  intros Hi Hj Hk p.
  assert (j * sx + k < sy * sx) as Hjk.
  { assert (j * sx + sx <= sy * sx) by
      (replace (j * sx + sx) with ((j + 1) * sx) by ring; apply Nat.mul_le_mono_r; lia).
    lia. }
  assert (p / (sz * sy * sx) = ch) as H1.
  { symmetry. apply Nat.div_unique with (r := offset3 sy sx i j k).
    - now apply offset3_lt.
    - unfold p. ring. }
  assert (p / (sy * sx) = ch * sz + i) as H2.
  { symmetry. apply Nat.div_unique with (r := j * sx + k); [exact Hjk|].
    unfold p, offset3. ring. }
  assert (p / sx = (ch * sz + i) * sy + j) as H3.
  { symmetry. apply Nat.div_unique with (r := k); [exact Hk|].
    unfold p, offset3. ring. }
  repeat split.
  - exact H1.
  - rewrite H2. symmetry. apply Nat.mod_unique with (q := ch); [exact Hi | ring].
  - rewrite H3. symmetry. apply Nat.mod_unique with (q := ch * sz + i); [exact Hj | ring].
  - symmetry. apply Nat.mod_unique with (q := (ch * sz + i) * sy + j); [exact Hk|].
    unfold p, offset3. ring.
Qed.

(** What [crop] of the specification returns: the shape is the crop size
    behind the leading axes, and the element at [(c, i, j, k)] is the
    element at [(c, oz + i, oy + j, ox + k)] of the volume. *)
Lemma crop_subbox (vol c : Volume) (oz oy ox sz sy sx z y x : nat) :
  SpecKernels.spatial (shape vol) = (z, y, x) ->
  SpecKernels.crop vol (oz, oy, ox) (Some (sz, sy, sx)) = Ok c ->
  shape c = leading (shape vol) ++ [sz; sy; sx] /\
  forall ch i j k, ch < size_of (leading (shape vol)) -> i < sz -> j < sy -> k < sx ->
    at4 c sz sy sx ch i j k = at4 vol z y x ch (oz + i) (oy + j) (ox + k).
Proof.
  intros Hsp. unfold SpecKernels.crop. rewrite Hsp.
  destruct ((oz + sz <=? z) && (oy + sy <=? y) && (ox + sx <=? x)); [|discriminate].
  intros [= <-]. split; [reflexivity|].
  intros ch i j k Hch Hi Hj Hk. unfold at4 at 1.
  rewrite flat_tabulate.
  - destruct (block_decode sz sy sx ch i j k Hi Hj Hk) as (-> & -> & -> & ->).
    reflexivity.
  - apply block_index_lt; [exact Hch | now apply offset3_lt].
Qed.

(** C4.  With [crop] as the specification describes it, [Affinity]
    configured with a crop offset and a crop size returns the sample it
    returns without the crop (the label and the mask written), every entry
    replaced by its sub-box: the keys are the same, and the entry under each
    key has the crop size as spatial shape, behind the leading axes of the
    uncropped entry, and the values of the uncropped entry at the offset. *)
Theorem affinity_crops_every_entry (dst : list Offset) (source target : string)
    (oz oy ox sz sy sx : nat) (base_w : option Q) (recompute : bool)
    (sample final : Sample) (kwargs : Kwargs) :
  tf_crop K = SpecKernels.crop ->
  dict_wf sample ->
  call K (Affinity dst source target (Some (oz, oy, ox)) (Some (sz, sy, sx))
            base_w recompute) sample kwargs = Return final ->
  exists uncropped,
    call K (Affinity dst source target None (Some (sz, sy, sx)) base_w recompute)
      sample kwargs = Return uncropped /\
    contains uncropped target = true /\
    contains uncropped (mask_key target) = true /\
    keys final = keys uncropped /\
    forall key v, getitem uncropped key = Some v ->
      exists c,
        getitem final key = Some c /\
        shape c = leading (shape v) ++ [sz; sy; sx] /\
        forall z y x, SpecKernels.spatial (shape v) = (z, y, x) ->
          forall ch i j k,
            ch < size_of (leading (shape v)) -> i < sz -> j < sy -> k < sx ->
            at4 c sz sy sx ch i j k = at4 v z y x ch (oz + i) (oy + j) (ox + k).
Proof.
  intros HK Hwf Hcall.
  destruct (Affinity_crop_return K _ _ _ _ _ _ _ _ _ _ Hwf Hcall)
    as (u & Hu & Hkeys & Hall).
  exists u. split; [exact Hu|].
  destruct (call_writes_target K _ _ _ _ target Hu eq_refl) as [Ht Hm].
  repeat split; try assumption.
  intros key v Hv. destruct (Hall key v Hv) as (c & Hc & Hget).
  rewrite HK in Hc. exists c. split; [exact Hget|].
  destruct (SpecKernels.spatial (shape v)) as [[z y] x] eqn:Hsp.
  destruct (crop_subbox v c oz oy ox sz sy sx z y x Hsp Hc) as [Hshape Hval].
  split; [exact Hshape|].
  intros z' y' x' [= <- <- <-]. exact Hval.
Qed.

End CropValues.

(** ** Segmentation: recomputing twice *)

Section SegmentationFacts.
Variable K : Kernels.

Lemma append_inj_l (a b c : string) : (a ++ c)%string = (b ++ c)%string -> a = b.
Proof.
  revert b. induction a as [|x a IH]; intros [|y b]; simpl; intros E; auto.
  - apply (f_equal String.length) in E. simpl in E.
    rewrite string_length_append in E. lia.
  - apply (f_equal String.length) in E. simpl in E.
    rewrite string_length_append in E. lia.
  - injection E as -> E. f_equal. now apply IH.
Qed.

Lemma mask_key_inj (a b : string) : mask_key a = mask_key b -> a = b.
Proof. apply append_inj_l. Qed.

Lemma extract_ext (s s' : Sample) (key : string) :
  getitem s key = getitem s' key ->
  getitem s (mask_key key) = getitem s' (mask_key key) ->
  extract s key = extract s' key.
Proof.
  intros H1 H2. unfold extract, contains, subscript. now rewrite H1, H2.
Qed.

Lemma extract_in_place (s : Sample) (key : string) (v m : Volume) :
  extract (setitem (setitem s key v) (mask_key key) m) key = Ok (v, astype_float32 m).
Proof.
  unfold extract, contains, subscript.
  rewrite getitem_setitem_other by apply mask_key_neq.
  rewrite getitem_setitem_same, getitem_setitem_same. reflexivity.
Qed.

(** The sample a [Segmentation] returns, and the values it wrote. *)
Lemma Segmentation_return source target recompute s kwargs s' :
  call K (Segmentation source target recompute) s kwargs = Return s' <->
  exists seg msk seg' v m,
    extract s source = Ok (seg, msk) /\
    (if recompute then recompute_components K seg else Ok seg) = Ok seg' /\
    utils_check_volume K (astype_float32 seg') = Ok v /\
    utils_check_volume K (astype_float32 msk) = Ok m /\
    s' = setitem (setitem s target v) (mask_key target) m.
Proof.
  simpl. unfold exec, Segmentation_call, bind, pure, lift, store. split.
  - destruct (extract s source) as [[seg msk]|e]; [|discriminate].
    destruct (if recompute then recompute_components K seg else Ok seg) as [seg'|e]
      eqn:Er; [|discriminate].
    destruct (utils_check_volume K (astype_float32 seg')) as [v|e] eqn:Ev; [|discriminate].
    destruct (utils_check_volume K (astype_float32 msk)) as [m|e] eqn:Em; [|discriminate].
    intros [= <-]. exists seg, msk, seg', v, m. auto.
  - intros (seg & msk & seg' & v & m & -> & -> & -> & -> & ->). reflexivity.
Qed.

Lemma setitem_pair_again (s : Sample) (k : string) (v m : Volume) :
  let s1 := setitem (setitem s k v) (mask_key k) m in
  setitem (setitem s1 k v) (mask_key k) m = s1.
Proof.
  intros s1.
  assert (getitem s1 k = Some v) as Hv.
  { unfold s1. rewrite getitem_setitem_other by apply mask_key_neq.
    apply getitem_setitem_same. }
  rewrite (setitem_getitem_id s1 k v Hv).
  apply setitem_getitem_id. apply getitem_setitem_same.
Qed.

Lemma recompute_graph_consistent (seg v : Volume) :
  graph_consistent K seg v -> recompute_components K v = recompute_components K seg.
Proof.
  intros [Hsh Haff]. unfold recompute_components.
  rewrite !Haff by (unfold axis_dsts; simpl; auto).
  now rewrite Hsh.
Qed.

(** With keys that do not meet, the second call reads what the first read. *)
Lemma Segmentation_twice_apart source target recompute s kwargs :
  target <> source -> target <> mask_key source -> source <> mask_key target ->
  twice K (Segmentation source target recompute) s kwargs
  = call K (Segmentation source target recompute) s kwargs.
Proof.
  intros H1 H2 H3. unfold twice.
  destruct (call K (Segmentation source target recompute) s kwargs) as [s1|e s1] eqn:E;
    [|reflexivity].
  cbn [and_then]. apply Segmentation_return.
  apply Segmentation_return in E.
  destruct E as (seg & msk & seg' & v & m & Hex & Hrc & Hv & Hm & ->).
  exists seg, msk, seg', v, m. repeat split; try assumption.
  - rewrite <- Hex. apply extract_ext.
    + rewrite !getitem_setitem_other; auto.
    + rewrite !getitem_setitem_other; auto.
      intros E. apply mask_key_inj in E. congruence.
  - symmetry. apply setitem_pair_again.
Qed.

(** In place, the second call reads what the first wrote. *)
Lemma Segmentation_twice_in_place source s kwargs :
  in_place_stable K s source ->
  twice K (Segmentation source source true) s kwargs
  = call K (Segmentation source source true) s kwargs.
Proof.
  intros Hst. unfold twice.
  destruct (call K (Segmentation source source true) s kwargs) as [s1|e s1] eqn:E;
    [|reflexivity].
  cbn [and_then]. apply Segmentation_return.
  apply Segmentation_return in E.
  destruct E as (seg & msk & r & v & m & Hex & Hrc & Hv & Hm & ->).
  destruct (Hst seg msk r v m Hex Hrc Hv Hm) as [Hgc Hm'].
  exists v, (astype_float32 m), r, v, m. repeat split.
  - apply extract_in_place.
  - rewrite (recompute_graph_consistent seg v Hgc). exact Hrc.
  - exact Hv.
  - rewrite astype_float32_idem. exact Hm'.
  - symmetry. apply setitem_pair_again.
Qed.

(** For all kernels, a [Segmentation] with [recompute=True] applied twice
    gives what it gives applied once, when its target key is not the mask
    key of its source and its source key is not the mask key of its target:
    always when target and source differ, and in place (target = source)
    when the segmentation emitted induces the affinity graph of its source
    and the cast leaves a cast mask as it is. *)
Theorem segmentation_recompute_twice (source target : string) (sample : Sample)
    (kwargs : Kwargs) :
  target <> mask_key source ->
  source <> mask_key target ->
  (target = source -> in_place_stable K sample source) ->
  twice K (Segmentation source target true) sample kwargs
  = call K (Segmentation source target true) sample kwargs.
Proof.
  intros H1 H2 Hst. destruct (string_dec target source) as [->|Hne].
  - apply Segmentation_twice_in_place. now apply Hst.
  - now apply Segmentation_twice_apart.
Qed.

End SegmentationFacts.

(** ** The kernels of the specification: connected components *)

Module SpecKernelsFacts.
Import SpecKernels.

#[local] Hint Constructors conn : core.

Lemma conn_incl (es es' : list (nat * nat)) (p q : nat) :
  incl es es' -> conn es p q -> conn es' p q.
Proof. intros Hi H. induction H; eauto. Qed.

Lemma conn_nil (p q : nat) : conn [] p q -> p = q.
Proof. intros H. induction H; try congruence. contradiction. Qed.

(** One more edge [(a, b)] joins exactly the classes of [a] and of [b]. *)
Lemma conn_snoc (es : list (nat * nat)) (a b p q : nat) :
  conn (es ++ [(a, b)]) p q <->
  conn es p q \/ ((conn es p a \/ conn es p b) /\ (conn es q a \/ conn es q b)).
Proof.
  split.
  - intros H. induction H as [p|u v Hin|p q H IH|p m q H1 IH1 H2 IH2].
    + auto.
    + apply in_app_or in Hin. destruct Hin as [Hin|[E|[]]]; [auto|].
      injection E as <- <-. right. auto.
    + destruct IH as [IH|[IHp IHq]]; auto.
    + destruct IH1 as [IH1|[Hp Hm]].
      * destruct IH2 as [IH2|[Hm' Hq]]; [eauto|].
        right. split; [|exact Hq]. destruct Hm' as [Hm'|Hm']; eauto.
      * destruct IH2 as [IH2|[Hm' Hq]]; [|auto].
        right. split; [exact Hp|]. destruct Hm as [Hm|Hm]; eauto.
  - assert (incl es (es ++ [(a, b)])) as Hi by (apply incl_appl, incl_refl).
    assert (conn (es ++ [(a, b)]) a b) as Hab
        by (apply conn_edge, in_or_app; right; simpl; auto).
    intros [H|[[Hp|Hp] [Hq|Hq]]].
    + eapply conn_incl; eauto.
    + apply conn_trans with a; [|apply conn_sym]; eapply conn_incl; eauto.
    + apply conn_trans with a; [eapply conn_incl; eauto|].
      apply conn_trans with b; [exact Hab|]. apply conn_sym. eapply conn_incl; eauto.
    + apply conn_trans with b; [eapply conn_incl; eauto|].
      apply conn_trans with a; [apply conn_sym; exact Hab|].
      apply conn_sym. eapply conn_incl; eauto.
    + apply conn_trans with b; [|apply conn_sym]; eapply conn_incl; eauto.
Qed.

Lemma labels_init (n : nat) : labels_of n [] (map S (seq 0 n)).
Proof.
  assert (forall p, p < n -> nth p (map S (seq 0 n)) 0 = S p) as Hn.
  { intros p Hp. rewrite nth_map_in with (d' := 0) by (now rewrite length_seq).
    now rewrite seq_nth. }
  split; [now rewrite length_map, length_seq|]. split.
  - intros p Hp. rewrite Hn by assumption. lia.
  - intros p q Hp Hq. rewrite !Hn by assumption. split.
    + intros [= ->]. constructor.
    + intros H. apply conn_nil in H. now subst.
Qed.

Lemma labels_merge (n : nat) (es : list (nat * nat)) (ls : list nat) (a b : nat) :
  a < n -> b < n -> labels_of n es ls -> labels_of n (es ++ [(a, b)]) (merge ls (a, b)).
Proof.
  intros Ha Hb (Hlen & Hpos & Hconn). unfold merge; simpl.
  set (la := nth a ls 0). set (lb := nth b ls 0).
  assert (forall p, p < n ->
            nth p (map (fun l => if l =? lb then la else l) ls) 0
            = if nth p ls 0 =? lb then la else nth p ls 0) as Hn.
  { intros p Hp. now rewrite nth_map_in with (d' := 0) by lia. }
  split; [now rewrite length_map|]. split.
  - intros p Hp. rewrite Hn by assumption.
    destruct (nth p ls 0 =? lb); [apply Hpos; exact Ha | apply Hpos; exact Hp].
  - intros p q Hp Hq. rewrite !Hn by assumption. rewrite conn_snoc.
    rewrite <- (Hconn p q Hp Hq), <- (Hconn p a Hp Ha), <- (Hconn p b Hp Hb),
      <- (Hconn q a Hq Ha), <- (Hconn q b Hq Hb).
    fold la lb.
    destruct (Nat.eqb_spec (nth p ls 0) lb) as [Ep|Ep],
             (Nat.eqb_spec (nth q ls 0) lb) as [Eq|Eq]; split; intros H.
    + right. auto.
    + congruence.
    + right. split; [auto | left; congruence].
    + destruct H as [H|[_ [H|H]]]; congruence.
    + right. split; [left; congruence | auto].
    + destruct H as [H|[[H|H] _]]; congruence.
    + auto.
    + destruct H as [H|[[H|H] [H'|H']]]; congruence.
Qed.

Lemma labels_fold (n : nat) (rest done : list (nat * nat)) (ls : list nat) :
  (forall a b, In (a, b) rest -> a < n /\ b < n) ->
  labels_of n done ls ->
  labels_of n (done ++ rest) (fold_left merge rest ls).
Proof.
  revert done ls. induction rest as [|[a b] rest IH]; intros done ls Hin Hl; simpl.
  - now rewrite app_nil_r.
  - change (done ++ (a, b) :: rest) with (done ++ [(a, b)] ++ rest).
    rewrite app_assoc. apply IH.
    + intros u v H. apply Hin. now right.
    + destruct (Hin a b) as [Ha Hb]; [now left|]. now apply labels_merge.
Qed.

(** [components] labels the classes of its edges. *)
Lemma components_labels (n : nat) (es : list (nat * nat)) :
  (forall a b, In (a, b) es -> a < n /\ b < n) ->
  labels_of n es (components n es).
Proof.
  intros Hin. unfold components.
  apply (labels_fold n es [] _ Hin (labels_init n)).
Qed.

(** *** The voxel lattice *)

Lemma last3_idem (sh : list nat) : last3 (last3 sh) = last3 sh.
Proof.
  unfold last3. rewrite length_skipn.
  destruct (Nat.le_gt_cases (length sh) 3) as [H|H].
  - replace (length sh - 3) with 0 by lia. simpl.
    now replace (length sh - 0 - 3) with 0 by lia.
  - replace (length sh - (length sh - 3) - 3) with 0 by lia. reflexivity.
Qed.

Lemma spatial_last3 (sh : list nat) : spatial (last3 sh) = spatial sh.
Proof. unfold spatial. now rewrite last3_idem. Qed.

Lemma offset3_decode (y x p : nat) :
  offset3 y x (p / (y * x)) ((p / x) mod y) (p mod x) = p.
Proof.
  unfold offset3.
  replace (p / (y * x)) with (p / x / y)
    by (rewrite Nat.Div0.div_div; f_equal; apply Nat.mul_comm).
  rewrite (Nat.mul_comm (p / x / y) y), <- Nat.div_mod_eq.
  rewrite (Nat.mul_comm (p / x) x), <- Nat.div_mod_eq. reflexivity.
Qed.

Lemma shifted_lt (z y x p q : nat) (d : Offset) :
  shifted z y x p d = Some q -> q < z * y * x.
Proof.
  unfold shifted. destruct d as [[dz dy] dx].
  match goal with |- context [if ?c then _ else _] => destruct c eqn:C end;
    [|discriminate].
  intros [= <-]. repeat (apply andb_prop in C; destruct C as [C ?]).
  apply offset3_lt; lia.
Qed.

(** Along an axis, the neighbour is another voxel. *)
Lemma shifted_axis_neq (z y x p q : nat) (d : Offset) :
  In d axis_dsts -> shifted z y x p d = Some q -> q <> p.
Proof.
  unfold shifted, axis_dsts. intros Hd.
  destruct d as [[dz dy] dx].
  match goal with |- context [if ?c then _ else _] => destruct c eqn:C end;
    [|discriminate].
  intros [= <-]. repeat (apply andb_prop in C; destruct C as [C ?]).
  rewrite <- (offset3_decode y x p) at 4.
  intros E. apply offset3_inj in E; try lia.
  - simpl in Hd. destruct Hd as [[= <- <- <-]|[[= <- <- <-]|[[= <- <- <-]|[]]]]; lia.
  - apply Nat.mod_upper_bound. lia.
  - apply Nat.mod_upper_bound. lia.
Qed.

(** *** Affinities and the labels recomputed from them *)

Lemma affinitize_value (seg ret : Volume) (d : Offset) (z y x : nat) :
  spatial (shape seg) = (z, y, x) ->
  affinitize seg ret d = Ok (mkVolume (shape ret) (affinity_data (flat seg) z y x d)).
Proof.
  intros Hsp. unfold affinitize, affinity_data. rewrite Hsp. do 2 f_equal.
  apply map_ext. intros p. unfold linked. now destruct (shifted z y x p d).
Qed.

Lemma affinity_data_length S z y x d : length (affinity_data S z y x d) = z * y * x.
Proof. unfold affinity_data. now rewrite length_map, length_seq. Qed.

Lemma affinity_data_nth S z y x d p :
  p < z * y * x ->
  nth p (affinity_data S z y x d) 0%Q = if linked S z y x d p then 1%Q else 0%Q.
Proof.
  intros Hp. unfold affinity_data.
  rewrite nth_map_in with (d' := 0) by (now rewrite length_seq).
  now rewrite seq_nth.
Qed.

Lemma axis_affinities_flat S sh3 z y x c d p :
  In (c, d) axis_offsets -> p < z * y * x ->
  Qeq_bool (flat (axis_affinities S sh3 z y x) (c * (z * y * x) + p)) 1
  = linked S z y x d p.
Proof.
  intros Hcd Hp. unfold flat, axis_affinities, np_stack; simpl.
  pose proof (affinity_data_length S z y x) as Hlen.
  assert (forall b : bool, Qeq_bool (if b then 1%Q else 0%Q) 1 = b) as Hb
      by (intros []; reflexivity).
  destruct Hcd as [[= <- <-]|[[= <- <-]|[[= <- <-]|[]]]].
  - rewrite app_nth1 by (rewrite Hlen; lia).
    now rewrite affinity_data_nth.
  - rewrite app_nth2 by (rewrite Hlen; lia). rewrite Hlen.
    replace (1 * (z * y * x) + p - z * y * x) with p by lia.
    rewrite app_nth1 by (rewrite Hlen; lia).
    now rewrite affinity_data_nth.
  - rewrite app_nth2 by (rewrite Hlen; lia). rewrite Hlen.
    rewrite app_nth2 by (rewrite Hlen; lia). rewrite Hlen.
    replace (2 * (z * y * x) + p - z * y * x - z * y * x) with p by lia.
    rewrite app_nth1 by (rewrite Hlen; lia).
    now rewrite affinity_data_nth.
Qed.

Lemma axis_offsets_dsts c d : In (c, d) axis_offsets -> In d axis_dsts.
Proof.
  unfold axis_offsets, axis_dsts. simpl.
  intros [[= <- <-]|[[= <- <-]|[[= <- <-]|[]]]]; auto.
Qed.

Lemma axis_dsts_offsets d : In d axis_dsts -> exists c, In (c, d) axis_offsets.
Proof.
  unfold axis_offsets, axis_dsts. simpl.
  intros [<-|[<-|[<-|[]]]]; eexists; eauto.
Qed.

(** The edges read off the stacked affinities are the linked pairs. *)
Lemma edges_linked S sh3 z y x a b :
  spatial sh3 = (z, y, x) ->
  In (a, b) (edges (axis_affinities S sh3 z y x)) <->
  a < z * y * x /\
  exists d, In d axis_dsts /\ linked S z y x d a = true /\ shifted z y x a d = Some b.
Proof.
  intros Hsp. unfold edges.
  change (tl (shape (axis_affinities S sh3 z y x))) with sh3. rewrite Hsp.
  rewrite in_flat_map. split.
  - intros (p & Hp & Hin). apply in_seq in Hp. unfold edges_at in Hin.
    apply in_flat_map in Hin. destruct Hin as ([c d] & Hcd & Hin). simpl in Hin.
    rewrite (axis_affinities_flat S sh3 z y x c d p Hcd) in Hin by lia.
    destruct (linked S z y x d p) eqn:Hl; [|contradiction].
    destruct (shifted z y x p d) as [q|] eqn:Hs; [|contradiction].
    destruct Hin as [[= <- <-]|[]]. split; [lia|].
    exists d. eauto using axis_offsets_dsts.
  - intros (Ha & d & Hd & Hl & Hs). exists a. split; [apply in_seq; lia|].
    destruct (axis_dsts_offsets d Hd) as [c Hcd].
    unfold edges_at. apply in_flat_map. exists (c, d). split; [exact Hcd|]. simpl.
    rewrite (axis_affinities_flat S sh3 z y x c d a Hcd Ha), Hl, Hs. now left.
Qed.

Lemma linked_true S z y x d p :
  linked S z y x d p = true ->
  exists q, shifted z y x p d = Some q /\ (S p == S q)%Q /\ ~ (S p == 0)%Q.
Proof.
  unfold linked. destruct (shifted z y x p d) as [q|]; [|discriminate].
  intros H. apply andb_prop in H. destruct H as [H1 H2].
  exists q. split; [reflexivity|]. split.
  - now apply Qeq_bool_iff.
  - unfold nonzero in H2. apply negb_true_iff in H2.
    intros E. apply Qeq_bool_iff in E. congruence.
Qed.

(** Voxels joined by linked pairs carry one nonzero ID. *)
Lemma conn_same_id (S : nat -> Q) (es : list (nat * nat)) (p q : nat) :
  (forall a b, In (a, b) es -> (S a == S b)%Q /\ ~ (S a == 0)%Q) ->
  conn es p q ->
  p = q \/ ((S p == S q)%Q /\ ~ (S p == 0)%Q).
Proof.
  intros Hes H. induction H as [p|a b Hin|p q H IH|p m q H1 IH1 H2 IH2].
  - now left.
  - right. now apply Hes.
  - destruct IH as [->|[E N]]; [now left|]. right. split.
    + now symmetry.
    + intros E0. apply N. now rewrite E.
  - destruct IH1 as [->|[E1 N1]]; [exact IH2|].
    destruct IH2 as [<-|[E2 N2]]; [now right|].
    right. split; [now rewrite E1 | exact N1].
Qed.

Lemma id_of_eqb (a b : nat) : Qeq_bool (id_of a) (id_of b) = (a =? b).
Proof.
  unfold id_of. destruct (Nat.eqb_spec a b) as [->|Hne].
  - apply Qeq_bool_iff. reflexivity.
  - destruct (Qeq_bool (inject_Z (Z.of_nat a)) (inject_Z (Z.of_nat b))) eqn:E; [|reflexivity].
    apply Qeq_bool_iff in E. unfold Qeq in E. simpl in E. lia.
Qed.

Lemma id_of_nonzero (a : nat) : 1 <= a -> nonzero (id_of a) = true.
Proof.
  intros Ha. unfold nonzero. change 0%Q with (id_of 0). rewrite id_of_eqb.
  destruct (Nat.eqb_spec a 0); [lia | reflexivity].
Qed.

(** The labels recomputed from the axis affinities of [S] link the pairs
    that [S] links. *)
Lemma relabelled_linked (S : nat -> Q) (sh3 : list nat) (z y x : nat) (d : Offset) (p : nat) :
  spatial sh3 = (z, y, x) -> In d axis_dsts -> p < z * y * x ->
  let ls := components (z * y * x) (edges (axis_affinities S sh3 z y x)) in
  linked (fun i => nth i (map id_of ls) 0%Q) z y x d p = linked S z y x d p.
Proof.
  intros Hsp Hd Hp ls.
  assert (labels_of (z * y * x) (edges (axis_affinities S sh3 z y x)) ls)
    as (Hlen & Hpos & Hconn).
  { apply components_labels. intros a b Hab.
    apply (edges_linked S sh3 z y x a b Hsp) in Hab.
    destruct Hab as (Ha & d' & _ & _ & Hs). split; [exact Ha|].
    eapply shifted_lt; eauto. }
  unfold linked at 1. destruct (shifted z y x p d) as [q|] eqn:Hs.
  2:{ unfold linked. now rewrite Hs. }
  pose proof (shifted_lt z y x p q d Hs) as Hq.
  pose proof (shifted_axis_neq z y x p q d Hd Hs) as Hne.
  rewrite !nth_map_in with (d' := 0) by lia.
  rewrite id_of_eqb, id_of_nonzero by (now apply Hpos). rewrite andb_true_r.
  destruct (linked S z y x d p) eqn:Hl.
  - apply Nat.eqb_eq. apply Hconn; try assumption.
    apply conn_edge. apply (edges_linked S sh3 z y x p q Hsp).
    split; [exact Hp|]. exists d. auto.
  - apply Nat.eqb_neq. intros E. apply Hconn in E; try assumption.
    apply (conn_same_id S) in E.
    + destruct E as [E|[E N]]; [congruence|].
      unfold linked in Hl. rewrite Hs in Hl.
      apply andb_false_iff in Hl. destruct Hl as [Hl|Hl].
      * apply Qeq_bool_iff in E. congruence.
      * unfold nonzero in Hl. apply negb_false_iff in Hl.
        apply Qeq_bool_iff in Hl. contradiction.
    + intros a b Hab. apply (edges_linked S sh3 z y x a b Hsp) in Hab.
      destruct Hab as (_ & d' & _ & Hl' & Hs').
      apply linked_true in Hl'. destruct Hl' as (q' & Hs'' & E' & N').
      assert (q' = b) as -> by congruence. auto.
Qed.

Lemma recompute_value (seg : Volume) (z y x : nat) :
  spatial (shape seg) = (z, y, x) ->
  recompute_components kernels seg
  = Ok (mkVolume (last3 (shape seg))
          (map id_of
             (components (z * y * x)
                (edges (axis_affinities (flat seg) (last3 (shape seg)) z y x))))).
Proof.
  intros Hsp. unfold recompute_components; simpl.
  rewrite !(affinitize_value seg _ _ z y x Hsp). simpl.
  unfold get_segmentation.
  change (tl (shape (np_stack ?sh ?l))) with sh.
  rewrite spatial_last3, Hsp. reflexivity.
Qed.

(** Round trip: the segmentation recomputed from the axis affinities of a
    volume induces these affinities again. *)
Lemma recompute_round_trip (seg : Volume) :
  exists r, recompute_components kernels seg = Ok r /\ graph_consistent kernels seg r.
Proof.
  destruct (spatial (shape seg)) as [[z y] x] eqn:Hsp.
  eexists. split; [apply (recompute_value seg z y x Hsp)|].
  split; simpl; [apply last3_idem|].
  intros d Hd.
  rewrite (affinitize_value seg _ d z y x Hsp).
  rewrite (affinitize_value _ _ d z y x) by (simpl; now rewrite spatial_last3).
  simpl. rewrite last3_idem. do 2 f_equal.
  unfold affinity_data. apply map_ext_in. intros p Hp. apply in_seq in Hp.
  unfold flat at 1; simpl.
  rewrite (relabelled_linked (flat seg) (last3 (shape seg)) z y x d p); auto; try lia.
  now rewrite spatial_last3.
Qed.

End SpecKernelsFacts.

(** Affinity round trip, on the kernels of the specification: the
    segmentation that the recompute block returns for a volume has the
    spatial shape of the volume and its affinities along the three axes. *)
Theorem recompute_induces_affinities (seg r : Volume) :
  recompute_components SpecKernels.kernels seg = Ok r ->
  shape r = last3 (shape seg) /\
  graph_consistent SpecKernels.kernels seg r.
Proof.
  intros Hr.
  destruct (SpecKernelsFacts.recompute_round_trip seg) as (r' & Hr' & Hgc).
  assert (r' = r) as -> by congruence. split; [|exact Hgc].
  destruct (SpecKernels.spatial (shape seg)) as [[z y] x] eqn:Hsp.
  rewrite (SpecKernelsFacts.recompute_value seg z y x Hsp) in Hr.
  injection Hr as <-. reflexivity.
Qed.


(** ** What a transform reads and what it assigns *)

Section WritesFacts.

Lemma writes_only_readonly A (ks : list string) (m : M A) :
  readonly m -> writes_only ks m.
Proof. intros H s. specialize (H s). destruct (m s); subst; auto. Qed.

Lemma writes_only_store (ks : list string) (key : string) (v : Volume) :
  In key ks -> writes_only ks (store key v).
Proof.
  intros Hin s k Hk. unfold store. apply getitem_setitem_other.
  intros ->. auto.
Qed.

Lemma writes_only_bind A B (ks : list string) (m : M A) (k : A -> M B) :
  writes_only ks m -> (forall a, writes_only ks (k a)) -> writes_only ks (bind m k).
Proof.
  intros Hm Hk s. unfold bind. specialize (Hm s).
  destruct (m s) as [a s1|e s1]; [|exact Hm].
  specialize (Hk a s1).
  destruct (k a s1); intros key Hkey; rewrite Hk, Hm; auto.
Qed.

Lemma writes_only_exec (ks : list string) (m : M unit) (s : Sample) :
  writes_only ks m ->
  match exec m s with
  | Return s' | Raise _ s' => forall k, ~ In k ks -> getitem s' k = getitem s k
  end.
Proof. intros H. specialize (H s). unfold exec. now destruct (m s). Qed.

End WritesFacts.

(** Goes under the binds of a computation, down to its assignments. *)
Ltac step_writes :=
  repeat first
    [ progress (intros)
    | progress (cbv zeta)
    | match goal with
      | p : (_ * _)%type |- _ => destruct p
      | |- writes_only _ (bind _ _) => apply writes_only_bind
      | |- writes_only _ (store _ _) => apply writes_only_store; simpl; tauto
      | |- writes_only _ _ => apply writes_only_readonly; solve [auto with sample_effects]
      end ].

(** In a computation unfolded to its pure steps, takes the cases of every
    step: its value, or the exception it raises. *)
Ltac split_results :=
  repeat (cbv beta iota zeta;
          match goal with
          | |- context [match ?r with Ok _ => _ | Error _ => _ end] => destruct r as [?|?]
          | |- context [let (_, _) := ?p in _] => destruct p as [? ?]
          end);
  cbv beta iota zeta.

Section FrameFacts.
Variable K : Kernels.

(** A transform without a crop leaves every entry that it does not assign
    as it was, whether it returns or raises. *)
Lemma call_frame (tf : Transform) (sample : Sample) (kwargs : Kwargs) :
  crops tf = false ->
  match call K tf sample kwargs with
  | Return s' | Raise _ s' =>
      forall k, ~ In k (written_keys tf) -> getitem s' k = getitem sample k
  end.
Proof.
  intros Hc.
  destruct tf as [| | | ? ? ? [offset|] | | | | ? ? [key|] ]; simpl in Hc;
    try discriminate; cbn [call]; auto;
    apply writes_only_exec;
    unfold Boundary_call, Segmentation_call, Affinity_call, Semantic_call, Synapse_call,
      CenterInstance_call, CenterInstance_mask, ObjectInstance_call;
    step_writes.
Qed.

(** A pipeline in which no [Affinity] crops leaves every entry whose
    key no transform of the pipeline assigns as it was, whether the call
    returns or raises: the input volumes are never rewritten behind the
    caller's back. *)
Theorem pipeline_frame (self : Transformer) (sample : Sample) (kwargs : Kwargs) :
  (forall tf, In tf (_transforms self) -> crops tf = false) ->
  match Transformer_call K self sample kwargs with
  | Return s' | Raise _ s' =>
      forall k, (forall tf, In tf (_transforms self) -> ~ In k (written_keys tf)) ->
        getitem s' k = getitem sample k
  end.
Proof.
  unfold Transformer_call. generalize (_transforms self) as tfs. intros tfs.
  revert sample. induction tfs as [|tf tfs IH]; intros sample Hc; simpl; [auto|].
  pose proof (call_frame tf sample kwargs (Hc tf (or_introl eq_refl))) as Hf.
  destruct (call K tf sample kwargs) as [mid|e s]; simpl.
  - assert (forall tf0, In tf0 tfs -> crops tf0 = false) as Hc' by (intros; apply Hc; now right).
    specialize (IH mid Hc').
    destruct (run K tfs mid kwargs) as [s'|e s']; intros k Hk;
      (rewrite IH by (intros; apply Hk; now right));
      apply Hf, Hk; now left.
  - intros k Hk. apply Hf, Hk. now left.
Qed.

(** A transform applied to a sample that does not hold its source key
    raises and leaves the sample as it was: the assertion error of
    [extract], except for a [CenterInstance] with a mask key, which reads
    [sample[self.source]] first and raises the KeyError of the subscript. *)
Theorem missing_source (tf : Transform) (sample : Sample) (kwargs : Kwargs)
    (source : string) :
  source_of tf = Some source ->
  contains sample source = false ->
  call K tf sample kwargs
  = Raise (match tf with
           | CenterInstance _ _ (Some _) _ => KeyError source
           | _ => AssertionError (KeyInSample source)
           end) sample.
Proof.
  intros Hs Hc.
  assert (extract sample source = Error (AssertionError (KeyInSample source))) as Hex
    by (unfold extract; now rewrite Hc).
  destruct tf as [| | | | | | | ? ? [key|] ]; simpl in Hs; try discriminate;
    injection Hs as ->; cbn [call];
    unfold exec, Boundary_call, Segmentation_call, Affinity_call, Semantic_call,
      Synapse_call, CenterInstance_call, CenterInstance_mask, ObjectInstance_call,
      bind, ret, pure, lift; try (rewrite Hex; reflexivity).
  unfold subscript. now rewrite (contains_false_getitem _ _ Hc).
Qed.

Lemma extract_setitem_ext (s1 s2 : Sample) (source key : string) (m : Volume) :
  getitem s1 source = getitem s2 source ->
  getitem s1 (mask_key source) = getitem s2 (mask_key source) ->
  extract (setitem s1 key m) source = extract (setitem s2 key m) source.
Proof.
  intros H1 H2. apply extract_ext.
  - destruct (string_dec key source) as [->|Hne].
    + now rewrite !getitem_setitem_same.
    + now rewrite !getitem_setitem_other.
  - destruct (string_dec key (mask_key source)) as [->|Hne].
    + now rewrite !getitem_setitem_same.
    + now rewrite !getitem_setitem_other.
Qed.

(** On two samples that hold the same entries under the source key and
    under its mask key, a transform without a crop does the same: it
    raises the same exception, or assigns the same values. *)
Lemma call_agree (tf : Transform) (s1 s2 : Sample) (kwargs : Kwargs) (source : string) :
  crops tf = false ->
  source_of tf = Some source ->
  getitem s1 source = getitem s2 source ->
  getitem s1 (mask_key source) = getitem s2 (mask_key source) ->
  match call K tf s1 kwargs, call K tf s2 kwargs with
  | Return s1', Return s2' =>
      exists vals,
        length vals = length (written_keys tf) /\
        s1' = assigned s1 (combine (written_keys tf) vals) /\
        s2' = assigned s2 (combine (written_keys tf) vals)
  | Raise e1 _, Raise e2 _ => e1 = e2
  | _, _ => False
  end.
Proof.
  intros Hc Hs H1 H2.
  pose proof (extract_ext s1 s2 source H1 H2) as Hex.
  destruct tf as [| | | ? ? ? [offset|] | | | | ? ? [key|] ]; simpl in Hc, Hs;
    try discriminate; injection Hs as ->; cbn [call written_keys length];
    unfold exec, Boundary_call, Segmentation_call, Affinity_call, Semantic_call,
      Synapse_call, CenterInstance_call, CenterInstance_mask, ObjectInstance_call,
      bind, ret, pure, lift, store.
  7: { pose proof (fun m => extract_setitem_ext s1 s2 source key m H1 H2) as Hset.
       unfold subscript. rewrite H1.
       destruct (getitem s2 source) as [seg|]; [|reflexivity].
       destruct (center_mask seg) as [m|e]; [|reflexivity].
       rewrite Hset.
       split_results; try reflexivity.
       match goal with
       | |- exists _, _ /\ setitem (setitem (setitem _ _ ?a) _ ?b) _ ?c = _ /\ _ =>
           exists [a; b; c]
       end. repeat split. }
  all: rewrite Hex; split_results; try reflexivity;
    match goal with
    | |- exists _, _ /\ setitem (setitem _ _ ?a) _ ?b = _ /\ _ => exists [a; b]
    end; repeat split.
Qed.

(** What a transform without a crop does depends on the sample through
    two entries only, the one under its source key and the one under the
    mask key of the source: on two samples that agree on them it raises the
    same exception, or returns each sample with the same values assigned
    under the keys it writes. *)
Theorem transform_reads_source_only (tf : Transform) (s1 s2 : Sample)
    (kwargs : Kwargs) (source : string) :
  crops tf = false ->
  source_of tf = Some source ->
  getitem s1 source = getitem s2 source ->
  getitem s1 (mask_key source) = getitem s2 (mask_key source) ->
  match call K tf s1 kwargs, call K tf s2 kwargs with
  | Return s1', Return s2' =>
      exists vals,
        length vals = length (written_keys tf) /\
        s1' = assigned s1 (combine (written_keys tf) vals) /\
        s2' = assigned s2 (combine (written_keys tf) vals)
  | Raise e1 _, Raise e2 _ => e1 = e2
  | _, _ => False
  end.
Proof. exact (call_agree tf s1 s2 kwargs source). Qed.

Lemma assigned_pair_again (s : Sample) (t : string) (l w : Volume) :
  let kvs := [(t, l); (mask_key t, w)] in
  assigned (assigned s kvs) kvs = assigned s kvs.
Proof. apply setitem_pair_again. Qed.

Lemma assigned_triple_again (s : Sample) (key t : string) (m l w : Volume) :
  let kvs := [(key, m); (t, l); (mask_key t, w)] in
  assigned (assigned s kvs) kvs = assigned s kvs.
Proof.
  unfold assigned; simpl.
  set (s1 := setitem (setitem (setitem s key m) t l) (mask_key t) w).
  assert (getitem s1 (mask_key t) = Some w) as Hw by apply getitem_setitem_same.
  assert (getitem s1 t = Some l) as Hl.
  { unfold s1. rewrite getitem_setitem_other by apply mask_key_neq.
    apply getitem_setitem_same. }
  destruct (string_dec key (mask_key t)) as [->|Hkm].
  - rewrite (setitem_getitem_id (setitem s1 (mask_key t) m) t l).
    + rewrite setitem_setitem_same. now apply setitem_getitem_id.
    + rewrite getitem_setitem_other by apply mask_key_neq. exact Hl.
  - destruct (string_dec key t) as [->|Hkt].
    + rewrite setitem_setitem_same.
      rewrite (setitem_getitem_id s1 t l Hl). now apply setitem_getitem_id.
    + assert (getitem s1 key = Some m) as Hm.
      { unfold s1. rewrite !getitem_setitem_other by congruence.
        apply getitem_setitem_same. }
      rewrite (setitem_getitem_id s1 key m Hm).
      rewrite (setitem_getitem_id s1 t l Hl). now apply setitem_getitem_id.
Qed.

(** A transform without a crop whose source key and source mask key
    are not among the keys it assigns is idempotent: applied twice in
    sequence it yields what it yields applied once. *)
Theorem transform_twice_apart (tf : Transform) (sample : Sample) (kwargs : Kwargs)
    (source : string) :
  crops tf = false ->
  source_of tf = Some source ->
  ~ In source (written_keys tf) ->
  ~ In (mask_key source) (written_keys tf) ->
  twice K tf sample kwargs = call K tf sample kwargs.
Proof.
  intros Hc Hs H1 H2. unfold twice.
  pose proof (call_frame tf sample kwargs Hc) as Hf.
  destruct (call K tf sample kwargs) as [s1|e s1] eqn:E; [|reflexivity].
  cbn [and_then].
  pose proof (call_agree tf sample s1 kwargs source Hc Hs
                (eq_sym (Hf _ H1)) (eq_sym (Hf _ H2))) as Ha.
  rewrite E in Ha.
  destruct (call K tf s1 kwargs) as [s2|e s2]; [|contradiction].
  destruct Ha as (vals & Hlen & -> & ->). f_equal.
  destruct tf as [| | | | | | | ? ? [key|] ]; simpl in Hs; try discriminate;
    simpl in Hlen;
    destruct vals as [|a [|b [|c [|d vals]]]]; simpl in Hlen; try discriminate;
    first [ apply assigned_pair_again | apply assigned_triple_again ].
Qed.

(** Without rebalancing, [Boundary], [Synapse], [ObjectInstance] and
    [CenterInstance] without a mask key hand the mask of their source on,
    cast to float32: the entry written under the mask key of the target
    holds the elements of the companion mask of the source, each rounded to
    binary32, when the sample holds one whose elements stay finite in the
    cast, and all ones in the shape of the source when it holds none. *)
Theorem mask_passes_through (tf : Transform) (sample final : Sample) (kwargs : Kwargs)
    (source target : string) (seg : Volume) :
  keeps_mask tf = true ->
  source_of tf = Some source ->
  target_of tf = Some target ->
  getitem sample source = Some seg ->
  (forall msk, getitem sample (mask_key source) = Some msk ->
               Forall (fun q => float32_finite q = true) (data msk)) ->
  call K tf sample kwargs = Return final ->
  getitem final (mask_key target)
  = Some (match getitem sample (mask_key source) with
          | Some msk => astype_float32 msk
          | None => np_ones (shape seg)
          end).
Proof.
  intros Hk Hs Ht Hg _.
  assert (extract sample source
          = Ok (seg, match getitem sample (mask_key source) with
                     | Some msk => astype_float32 msk
                     | None => np_ones (shape seg)
                     end)) as Hex.
  { unfold extract, contains, subscript. rewrite Hg.
    now destruct (getitem sample (mask_key source)). }
  destruct tf as [| | | | | | | ? ? [key|] ]; simpl in Hk, Hs, Ht;
    try discriminate;
    match goal with H : negb ?r = true |- _ => destruct r; [discriminate|] end;
    injection Hs as ->; injection Ht as ->; cbn [call];
    unfold exec, Boundary_call, Synapse_call, CenterInstance_call, CenterInstance_mask,
      ObjectInstance_call, bind, ret, pure, lift, store;
    rewrite Hex; split_results; try discriminate;
    intros [= <-]; apply getitem_setitem_same.
Qed.

End FrameFacts.

(** ** The pipeline: call parameters and raises *)

Section PipelineRaises.
Variable K : Kernels.

Lemma call_object_id (tf : Transform) (s : Sample) (kw1 kw2 : Kwargs) :
  object_id_of kw1 = object_id_of kw2 -> call K tf s kw1 = call K tf s kw2.
Proof.
  unfold object_id_of. intros H.
  destruct tf; cbn [call]; try reflexivity;
    unfold CenterInstance_call, ObjectInstance_call; cbv zeta; now rewrite H.
Qed.

(** Of the call parameters of a pipeline only [object_id] is read: two
    calls whose parameters hold the same [object_id] (absent counting as
    None) do the same on every sample. *)
Theorem pipeline_reads_object_id_only (self : Transformer) (sample : Sample)
    (kw1 kw2 : Kwargs) :
  passable kw1 -> passable kw2 ->
  object_id_of kw1 = object_id_of kw2 ->
  Transformer_call K self sample kw1 = Transformer_call K self sample kw2.
Proof.
  intros _ _ H. unfold Transformer_call. generalize (_transforms self) as tfs. intros tfs.
  revert sample. induction tfs as [|tf tfs IH]; intros sample; simpl; [reflexivity|].
  rewrite (call_object_id tf sample kw1 kw2 H).
  destruct (call K tf sample kw2); simpl; auto.
Qed.

Lemma run_app (a b : list Transform) (sample : Sample) (kwargs : Kwargs) :
  run K (a ++ b) sample kwargs
  = and_then (run K a sample kwargs) (fun s => run K b s kwargs).
Proof.
  revert sample. induction a as [|tf a IH]; intros sample; simpl; [reflexivity|].
  destruct (call K tf sample kwargs) as [mid|e s]; simpl; auto.
Qed.

(** Appending a transform to a pipeline always succeeds and puts it
    behind the transforms the pipeline holds, which stay as they are;
    calling the new pipeline is calling the old one and then the transform
    on the sample that it returned, with the same call parameters, and not
    at all when the old pipeline raises. *)
Theorem append_then_call (self : Transformer) (t : Transform) :
  exists self',
    append self (PyTransform t) = Return self' /\
    _transforms self' = _transforms self ++ [t] /\
    forall sample kwargs,
      Transformer_call K self' sample kwargs
      = and_then (Transformer_call K self sample kwargs)
          (fun s => call K t s kwargs).
Proof.
  exists (mkTransformer (_transforms self ++ [t])).
  split; [reflexivity|]. split; [reflexivity|].
  intros sample kwargs. unfold Transformer_call. simpl. rewrite run_app.
  destruct (run K (_transforms self) sample kwargs) as [s|e s]; simpl; [|reflexivity].
  now destruct (call K t s kwargs).
Qed.

(** A pipeline raises exactly when one of its transforms raises on
    the sample that the transforms in front of it returned, each called on
    the sample returned by the previous one; the pipeline then raises that
    exception and leaves the sample as that transform left it, and no later
    transform is called. *)
Theorem pipeline_raise (self : Transformer) (sample : Sample) (kwargs : Kwargs)
    (e : Exn) (s' : Sample) :
  Transformer_call K self sample kwargs = Raise e s' <->
  exists pre tf post mid,
    _transforms self = pre ++ tf :: post /\
    threaded K kwargs pre sample mid /\
    call K tf mid kwargs = Raise e s'.
Proof.
  unfold Transformer_call. generalize (_transforms self) as tfs. intros tfs. split.
  - revert sample. induction tfs as [|tf tfs IH]; intros sample; simpl; [discriminate|].
    destruct (call K tf sample kwargs) as [mid|e0 s0] eqn:E; simpl.
    + intros Hr. destruct (IH mid Hr) as (pre & tf1 & post & mid1 & -> & Ht & Hc).
      exists (tf :: pre), tf1, post, mid1. repeat split; auto.
      econstructor; eauto.
    + intros [= <- <-]. exists [], tf, tfs, sample. repeat split; auto. constructor.
  - intros (pre & tf & post & mid & -> & Ht & Hc).
    induction Ht as [s|tf0 tfs0 s m1 final Hc0 Ht IH]; simpl.
    + now rewrite Hc.
    + rewrite Hc0. simpl. now apply IH.
Qed.

(** A pipeline that holds an instance of the interface [Transform]
    itself never returns: on every sample it raises, at that instance
    (NotImplementedError) or before it. *)
Theorem interface_transform_raises (self : Transformer) (sample : Sample)
    (kwargs : Kwargs) :
  In TransformBase (_transforms self) ->
  exists e s', Transformer_call K self sample kwargs = Raise e s'.
Proof.
  unfold Transformer_call. generalize (_transforms self) as tfs. intros tfs.
  revert sample. induction tfs as [|tf tfs IH]; intros sample; simpl; [tauto|].
  intros [->|Hin].
  - simpl. eauto.
  - destruct (call K tf sample kwargs) as [mid|e s]; simpl; eauto.
Qed.

End PipelineRaises.

(** ** CenterInstance and Affinity: shapes *)

Section ShapeFacts.
Variable K : Kernels.

Lemma center_mask_few_axes (seg : Volume) :
  length (shape seg) < 3 -> center_mask seg = Error ValueError.
Proof.
  unfold center_mask, last3.
  destruct (shape seg) as [|a [|b [|c l]]]; simpl; intros H; try reflexivity; lia.
Qed.

Lemma last3_length (sh : list nat) : 3 <= length sh -> length (last3 sh) = 3.
Proof. intros H. unfold last3. rewrite length_skipn. lia. Qed.

Lemma center_mask_empty_axis (seg : Volume) :
  3 <= length (shape seg) -> In 0 (last3 (shape seg)) ->
  center_mask seg = Error IndexError.
Proof.
  intros H Hin. apply last3_length in H. unfold center_mask.
  destruct (last3 (shape seg)) as [|z [|y [|x [|w l]]]]; simpl in H; try lia.
  destruct Hin as [->|[->|[->|[]]]]; rewrite ?Nat.eqb_refl, ?orb_true_r; reflexivity.
Qed.

(** With a mask key configured, [CenterInstance] raises on a source
    whose shape has no centre voxel and leaves the sample as it was: a
    ValueError when the source has fewer than three axes, an IndexError
    when one of its last three axes is empty. *)
Theorem center_instance_shape_errors (source target key : string) (rebalance : bool)
    (kwargs : Kwargs) (sample : Sample) (seg : Volume) :
  getitem sample source = Some seg ->
  (length (shape seg) < 3 ->
   call K (CenterInstance source target (Some key) rebalance) sample kwargs
   = Raise ValueError sample) /\
  (3 <= length (shape seg) -> In 0 (last3 (shape seg)) ->
   call K (CenterInstance source target (Some key) rebalance) sample kwargs
   = Raise IndexError sample).
Proof.
  intros Hg.
  assert (forall e, center_mask seg = Error e ->
            call K (CenterInstance source target (Some key) rebalance) sample kwargs
            = Raise e sample) as Hcall.
  { intros e He. cbn [call].
    unfold exec, CenterInstance_call, CenterInstance_mask, bind, pure, lift, subscript.
    now rewrite Hg, He. }
  split.
  - intros H. apply Hcall. now apply center_mask_few_axes.
  - intros H Hin. apply Hcall. now apply center_mask_empty_axis.
Qed.

Lemma affinitize_channels_length (seg msk : Volume) (sh3 : list nat) (dst : list Offset)
    (affs msks : list Volume) :
  affinitize_channels K seg msk sh3 dst = Ok (affs, msks) ->
  length affs = length dst /\ length msks = length dst.
Proof.
  revert affs msks. induction dst as [|d dst IH]; intros affs msks; simpl.
  - intros [= <- <-]. auto.
  - destruct (tf_affinitize K seg (np_zeros sh3) d) as [a|e]; simpl; [|discriminate].
    destruct (tf_affinitize_mask K msk (np_zeros sh3) d) as [m|e]; simpl; [|discriminate].
    destruct (affinitize_channels K seg msk sh3 dst) as [[affs' msks']|e]; simpl;
      [|discriminate].
    intros [= <- <-]. destruct (IH affs' msks' eq_refl). simpl. auto.
Qed.

Lemma setchan_shape (v c v' : Volume) (i : nat) :
  setchan v i c = Ok v' -> shape v' = shape v.
Proof.
  unfold setchan. destruct (shape v) as [|n sh] eqn:E; [discriminate|].
  destruct (i <? n); [|discriminate].
  destruct (broadcast_to sh _); [|discriminate].
  intros [= <-]. reflexivity.
Qed.

Lemma rebalance_channels_shape (lbl msk msk' : Volume) (base_w : option Q)
    (cs : list nat) :
  rebalance_channels K lbl msk base_w cs = Ok msk' -> shape msk' = shape msk.
Proof.
  revert msk. induction cs as [|c cs IH]; intros msk; simpl.
  - now intros [= <-].
  - destruct (getchan lbl c) as [l|e]; simpl; [|discriminate].
    destruct (getchan msk c) as [m|e]; simpl; [|discriminate].
    destruct (tf_rebalance_binary_class K l m base_w) as [w|e]; simpl; [|discriminate].
    destruct (setchan msk c (astype_float32 w)) as [msk1|e] eqn:Es; simpl; [|discriminate].
    intros H. rewrite (IH _ H). eapply setchan_shape; eauto.
Qed.

(** The label and the mask that an [Affinity] without a crop writes
    have one and the same shape: one channel for each offset of [dst], in
    front of the last three axes of the segmentation that was affinitized
    (the source, or the segmentation recomputed from it), whether the
    channels of the mask were rebalanced or not. *)
Theorem affinity_label_mask_shape (dst : list Offset) (source target : string)
    (crop_size : option Vec3) (base_w : option Q) (recompute : bool)
    (sample final : Sample) (kwargs : Kwargs) (seg : Volume) :
  getitem sample source = Some seg ->
  call K (Affinity dst source target None crop_size base_w recompute) sample kwargs
  = Return final ->
  exists seg' lbl msk,
    (if recompute then recompute_components K seg else Ok seg) = Ok seg' /\
    getitem final target = Some lbl /\
    getitem final (mask_key target) = Some msk /\
    shape lbl = length dst :: last3 (shape seg') /\
    shape msk = shape lbl.
Proof.
  intros Hg. cbn [call].
  unfold exec, Affinity_call, bind, ret, pure, lift, store.
  destruct (extract sample source) as [[seg0 msk0]|e] eqn:Ex; [|discriminate].
  apply extract_value in Ex. assert (seg0 = seg) as -> by congruence.
  destruct (if recompute then recompute_components K seg else Ok seg) as [seg'|e];
    [|discriminate].
  destruct (affinitize_channels K seg' msk0 (last3 (shape seg')) dst)
    as [[affs msks]|e] eqn:Ea; [|discriminate].
  apply affinitize_channels_length in Ea. destruct Ea as [La Lm].
  cbv zeta.
  match goal with |- context [match ?r with Ok _ => _ | Error _ => _ end] =>
    destruct r as [msk'|e] eqn:Er end; [|discriminate].
  intros [= <-]. exists seg', (np_stack (last3 (shape seg')) affs), msk'.
  repeat split.
  - rewrite getitem_setitem_other by apply mask_key_neq. apply getitem_setitem_same.
  - apply getitem_setitem_same.
  - simpl. now rewrite La.
  - destruct base_w as [w|].
    + apply rebalance_channels_shape in Er. rewrite Er. simpl. congruence.
    + injection Er as <-. simpl. congruence.
Qed.

(** An [Affinity] with an empty list of offsets calls no kernel on the
    channels and is not refused: without recomputation and crop it returns,
    for every source, a label and a mask without channels, of shape
    [(0,) + seg.shape[-3:]]. *)
Theorem affinity_without_offsets (source target : string) (crop_size : option Vec3)
    (base_w : option Q) (sample : Sample) (kwargs : Kwargs) (seg : Volume) :
  getitem sample source = Some seg ->
  let empty := mkVolume (0 :: last3 (shape seg)) [] in
  call K (Affinity [] source target None crop_size base_w false) sample kwargs
  = Return (setitem (setitem sample target empty) (mask_key target) empty).
Proof.
  intros Hg empty. cbn [call].
  unfold exec, Affinity_call, bind, ret, pure, lift, store.
  unfold extract, contains, subscript. rewrite Hg.
  destruct (getitem sample (mask_key source)); simpl; destruct base_w; reflexivity.
Qed.

End ShapeFacts.

(** ** The data sections of [config_data.py] *)

Section ConfigFacts.
Context {T : Type}.
Variable L : Libraries T.

Lemma py_tuple_is_tuple (v t : PyValue) :
  py_tuple v = Got t -> exists items, t = VTuple items.
Proof. destruct v; simpl; intros [= <-]; eauto. Qed.

Lemma tuple_option_result (config : ConfigParser) (section option : string) (t : PyValue) :
  tuple_option L config section option = Got t ->
  (exists items, t = VTuple items) /\
  (has_option config section option = false -> t = zeros3).
Proof.
  unfold tuple_option, eval_tuple.
  destruct (has_option config section option).
  - destruct (get config section option) as [s|e]; simpl; [|discriminate].
    destruct (py_eval L s) as [v|e]; simpl; [|discriminate].
    intros H. split; [eapply py_tuple_is_tuple; eauto | discriminate].
  - intros [= <-]. split; [unfold zeros3; eauto | reflexivity].
Qed.

Lemma check_validity_got (pp : PyValue) :
  check_validity pp = Got tt ->
  exists entries, pp = VDict entries /\ has_key entries "type" = true.
Proof.
  destruct pp; simpl; try discriminate.
  destruct (has_key entries "type") eqn:E; [|discriminate]. eauto.
Qed.

Lemma check_each_got (pps : list PyValue) :
  check_each pps = Got tt ->
  Forall (fun pp => exists entries, pp = VDict entries /\ has_key entries "type" = true) pps.
Proof.
  induction pps as [|pp pps IH]; simpl; [constructor|].
  destruct (check_validity pp) as [[]|e] eqn:E; simpl; [|discriminate].
  intros H. constructor; [now apply check_validity_got | auto].
Qed.

Lemma eval_each_got (lines : list string) (pps : list PyValue) :
  eval_each L lines = Got pps ->
  Forall2 (fun line pp => py_eval L line = Got pp) lines pps.
Proof.
  revert pps. induction lines as [|x lines IH]; intros pps; simpl.
  - intros [= <-]. constructor.
  - destruct (py_eval L x) as [v|e] eqn:E; simpl; [|discriminate].
    destruct (eval_each L lines) as [vs|e]; simpl; [|discriminate].
    intros [= <-]. constructor; auto.
Qed.

(** What holds when [_prepare_data] returns: the section exists and
    holds the option [file] or the option [shape]; with [file], the data
    are read from that file, whatever [shape] and [filler] say; [fov] and
    [offset] are tuples, [(0,0,0)] without the option; every line of the
    option [preprocess] evaluated to a dictionary that holds ['type']; and
    the data returned are the data read or filled, passed through
    [check_tensor] and then through the preprocessing steps in the order
    of the lines. *)
Theorem prepare_data_result (config : ConfigParser) (section : string)
    (data : Volume) (fov offset : PyValue) :
  _prepare_data L config section = Got (data, fov, offset) ->
  has_section config section = true /\
  (has_option config section "file" = true \/
   has_option config section "shape" = true) /\
  ((exists items, fov = VTuple items) /\
   (has_option config section "fov" = false -> fov = zeros3)) /\
  ((exists items, offset = VTuple items) /\
   (has_option config section "offset" = false -> offset = zeros3)) /\
  exists raw checked preprocess,
    read_or_fill L config section = Got raw /\
    (has_option config section "file" = true ->
     exists path, get config section "file" = Got path /\ emio_imread L path = Got raw) /\
    (has_option config section "preprocess" = false -> preprocess = []) /\
    (forall s, has_option config section "preprocess" = true ->
               get config section "preprocess" = Got s ->
               Forall2 (fun line pp => py_eval L line = Got pp)
                 (str_split newline s) preprocess) /\
    Forall (fun pp => exists entries, pp = VDict entries /\ has_key entries "type" = true)
      preprocess /\
    check_tensor L raw = Got checked /\
    evaluate_each L checked preprocess = Got data.
Proof.
  unfold _prepare_data.
  destruct (has_section config section); [|discriminate].
  destruct (read_or_fill L config section) as [raw|e] eqn:Er; simpl; [|discriminate].
  destruct (tuple_option L config section "fov") as [f|e] eqn:Ef; simpl; [|discriminate].
  destruct (tuple_option L config section "offset") as [o|e] eqn:Eo; simpl; [|discriminate].
  destruct (preprocess_option L config section) as [pps|e] eqn:Ep; simpl; [|discriminate].
  destruct (check_each pps) as [[]|e] eqn:Ec; simpl; [|discriminate].
  destruct (check_tensor L raw) as [checked|e] eqn:Et; simpl; [|discriminate].
  destruct (evaluate_each L checked pps) as [d|e] eqn:Ee; simpl; [|discriminate].
  intros [= <- <- <-].
  split; [reflexivity|]. split.
  { revert Er. unfold read_or_fill.
    destruct (has_option config section "file"); [auto|].
    destruct (has_option config section "shape"); [auto|discriminate]. }
  split; [now apply tuple_option_result in Ef|].
  split; [now apply tuple_option_result in Eo|].
  exists raw, checked, pps. repeat split; auto.
  - revert Er. unfold read_or_fill. intros Er Hf. rewrite Hf in Er.
    destruct (get config section "file") as [path|e]; simpl in Er; [|discriminate].
    eauto.
  - revert Ep. unfold preprocess_option. intros Ep Hp. rewrite Hp in Ep. congruence.
  - revert Ep. unfold preprocess_option. intros Ep s Hp Hs. rewrite Hp, Hs in Ep.
    simpl in Ep. now apply eval_each_got.
  - now apply check_each_got.
Qed.

(** A section that holds the option [file] is prepared without a look
    at its options [shape] and [filler]: two configurations that differ in
    these two options only give the same data, or raise the same
    exception. *)
Theorem file_option_wins (c1 c2 : ConfigParser) (section : string) :
  has_option c1 section "file" = true ->
  has_section c1 section = has_section c2 section ->
  (forall option, option <> "shape" -> option <> "filler" ->
     has_option c1 section option = has_option c2 section option /\
     get c1 section option = get c2 section option) ->
  _prepare_data L c1 section = _prepare_data L c2 section.
Proof.
  intros Hf Hs Hsame.
  assert (forall option, option <> "shape" -> option <> "filler" ->
            tuple_option L c1 section option = tuple_option L c2 section option) as Ht.
  { intros o H1 H2. unfold tuple_option, eval_tuple.
    destruct (Hsame o H1 H2) as [-> ->]. reflexivity. }
  unfold _prepare_data. rewrite <- Hs.
  destruct (has_section c1 section); [|reflexivity].
  assert (read_or_fill L c1 section = read_or_fill L c2 section) as ->.
  { unfold read_or_fill.
    destruct (Hsame "file" ltac:(discriminate) ltac:(discriminate)) as [<- <-].
    now rewrite Hf. }
  rewrite (Ht "fov") by discriminate.
  rewrite (Ht "offset") by discriminate.
  assert (preprocess_option L c1 section = preprocess_option L c2 section) as ->.
  { unfold preprocess_option.
    destruct (Hsame "preprocess" ltac:(discriminate) ltac:(discriminate)) as [<- <-].
    reflexivity. }
  reflexivity.
Qed.

(** A [ConfigLabel] that was built describes its transform by None or
    by a dictionary that holds ['type']: [get_transform] returns None when
    the section has no option [transform], and never a value of another
    kind. *)
Theorem config_label_transform (config : ConfigParser) (section : string)
    (self : ConfigLabel T) :
  ConfigLabel_init L config section = Got self ->
  (has_option config section "transform" = false -> get_transform self = VNone) /\
  (get_transform self = VNone \/
   exists entries, get_transform self = VDict entries /\ has_key entries "type" = true).
Proof.
  unfold ConfigLabel_init.
  destruct (ConfigData_init L config section) as [base|e]; simpl; [|discriminate].
  unfold _transformation.
  destruct (has_option config section "transform").
  - destruct (get config section "transform") as [s|e]; simpl; [|discriminate].
    destruct (py_eval L s) as [v|e]; simpl; [|discriminate].
    destruct (match v with VNone => Got tt | _ => check_validity v end) as [[]|e] eqn:E;
      simpl; [|discriminate].
    intros [= <-]. unfold get_transform; simpl. split; [discriminate|].
    destruct v; auto; right; now apply check_validity_got.
  - simpl. intros [= <-]. unfold get_transform; simpl. auto.
Qed.

(** A section without the option [file] and without the option
    [shape] cannot be prepared: [_prepare_data] raises the RuntimeError that
    names the section (the assertion error when the section does not exist),
    whatever the other options hold and whatever the libraries do, and both
    constructors raise it too. *)
Theorem invalid_data_section (config : ConfigParser) (section : string) :
  has_option config section "file" = false ->
  has_option config section "shape" = false ->
  let e := if has_section config section
           then RuntimeError ("invalid data section [" ++ section ++ "]")
           else ConfigAssertionError (HasSection section) in
  _prepare_data L config section = Raised e /\
  ConfigData_init L config section = Raised e /\
  ConfigLabel_init L config section = Raised e.
Proof.
  intros Hf Hs e.
  assert (_prepare_data L config section = Raised e) as Hp.
  { unfold _prepare_data, read_or_fill, e. rewrite Hf, Hs.
    now destruct (has_section config section). }
  assert (ConfigData_init L config section = Raised e) as Hd
    by (unfold ConfigData_init; now rewrite Hp).
  repeat split; auto.
  unfold ConfigLabel_init. now rewrite Hd.
Qed.

Lemma check_validity_raised (pp : PyValue) (e : ConfigExn) :
  check_validity pp = Raised e ->
  exists a, e = ConfigAssertionError a /\ (a = IsInstanceDict \/ a = TypeInDict).
Proof.
  destruct pp; simpl; try (intros [= <-]; eauto).
  destruct (has_key entries "type"); [discriminate | intros [= <-]; eauto].
Qed.

Lemma check_each_invalid (pps : list PyValue) :
  Exists (fun pp => check_validity pp <> Got tt) pps ->
  exists a, check_each pps = Raised (ConfigAssertionError a) /\
            (a = IsInstanceDict \/ a = TypeInDict).
Proof.
  induction 1 as [pp pps H|pp pps H IH]; simpl;
    destruct (check_validity pp) as [[]|e] eqn:E; simpl;
    try congruence; try exact IH;
    destruct (check_validity_raised pp e E) as (a & -> & Ha); eauto.
Qed.

(** The preprocessing steps are checked before any of them is
    performed: when the data, [fov], [offset] and the lines of [preprocess]
    were read and one line gave a value that is not a dictionary holding
    ['type'], [_prepare_data] raises the assertion error of the check,
    whatever [check_tensor] and [tensor_func.evaluate] would do. *)
Theorem preprocess_checked_first (config : ConfigParser) (section : string)
    (raw : Volume) (fov offset : PyValue) (preprocess : list PyValue) :
  has_section config section = true ->
  read_or_fill L config section = Got raw ->
  tuple_option L config section "fov" = Got fov ->
  tuple_option L config section "offset" = Got offset ->
  preprocess_option L config section = Got preprocess ->
  Exists (fun pp => check_validity pp <> Got tt) preprocess ->
  exists a,
    _prepare_data L config section = Raised (ConfigAssertionError a) /\
    (a = IsInstanceDict \/ a = TypeInDict).
Proof.
  intros Hs Hr Hf Ho Hp Hex.
  destruct (check_each_invalid preprocess Hex) as (a & Hc & Ha).
  exists a. split; [|exact Ha].
  unfold _prepare_data. rewrite Hs, Hr, Hf, Ho, Hp. simpl. now rewrite Hc.
Qed.

End ConfigFacts.

(** * Concrete runs, on the kernels of the specification *)

(** Appending the name of a class instead of an instance. *)
Lemma append_non_transform_witness :
  isinstance_Transform (PyStr "Boundary") = false /\
  exists after,
    append Transformer_init (PyStr "Boundary")
    = Raise (AssertionError IsInstanceTransform) after /\
    after = Transformer_init /\
    _transforms after = [] /\
    forall after', append Transformer_init (PyStr "Boundary") <> Raise TypeError after'.
Proof.
  split; [reflexivity|].
  exact (append_non_transform Transformer_init (PyStr "Boundary") eq_refl).
Defined.

(** C7 as stated fails: the error of appending a value that is not a
    Transform is the AssertionError of the [isinstance] test, not a
    TypeError. *)
Lemma append_raises_no_type_error :
  isinstance_Transform (PyStr "Boundary") = false /\
  exists e after,
    append Transformer_init (PyStr "Boundary") = Raise e after /\
    e = AssertionError IsInstanceTransform /\
    e <> TypeError.
Proof.
  split; [reflexivity|].
  exists (AssertionError IsInstanceTransform), Transformer_init.
  repeat split. discriminate.
Qed.

(** [extract] of ["seg"] from a sample that holds ["img"] only. *)
Lemma extract_missing_key_witness :
  contains [("img", halves)] "seg" = false /\
  extract [("img", halves)] "seg" = Error (AssertionError (KeyInSample "seg")) /\
  forall k, extract [("img", halves)] "seg" <> Error (KeyError k).
Proof.
  split; [reflexivity|].
  exact (extract_missing_key [("img", halves)] "seg" eq_refl).
Defined.

(** C6 as stated fails: the error of [extract] on a key that the sample
    does not hold is the AssertionError of [assert key in sample], not a
    KeyError. *)
Lemma extract_raises_no_key_error :
  contains [("img", halves)] "seg" = false /\
  exists e,
    extract [("img", halves)] "seg" = Error e /\
    e = AssertionError (KeyInSample "seg") /\
    forall k, e <> KeyError k.
Proof.
  split; [reflexivity|].
  exists (AssertionError (KeyInSample "seg")). repeat split. discriminate.
Qed.

(** A pipeline of three transforms on the two-slab segmentation. *)
Lemma pipeline_targets_present_witness :
  exists final,
    Transformer_call SpecKernels.kernels
      (mkTransformer [Segmentation "seg" "seg" true;
                      Affinity axis_dsts "seg" "aff" None None None false;
                      CenterInstance "seg" "obj" (Some "ctr") false])
      [("seg", halves)] [] = Return final /\
    contains final "aff" = true /\ contains final "aff_mask" = true.
Proof.
  eexists. split; [vm_compute; reflexivity|].
  apply (pipeline_targets_present SpecKernels.kernels
           (mkTransformer [Segmentation "seg" "seg" true;
                           Affinity axis_dsts "seg" "aff" None None None false;
                           CenterInstance "seg" "obj" (Some "ctr") false])
           [("seg", halves)] [] _ (Affinity axis_dsts "seg" "aff" None None None false) "aff").
  - vm_compute. reflexivity.
  - simpl. auto.
  - reflexivity.
Defined.

(** [ObjectInstance] on a sample without its source: the assertion of
    [extract] fails and the sample is as it was. *)
Lemma transform_outcome_witness :
  call SpecKernels.kernels (ObjectInstance "seg" "obj" true) [("img", halves)] []
  = Raise (AssertionError (KeyInSample "seg")) [("img", halves)] /\
  left_at_raise SpecKernels.kernels (ObjectInstance "seg" "obj" true)
    [("img", halves)] (AssertionError (KeyInSample "seg")) [("img", halves)].
Proof.
  split; [reflexivity|].
  exact (transform_outcome SpecKernels.kernels (ObjectInstance "seg" "obj" true)
           [("img", halves)] []).
Defined.

(** C5 as stated fails on [CenterInstance]: with a mask key configured and a
    companion mask of another shape than the source, the rebalancing raises
    after the mask key was written, and the key stays in the sample. *)
Lemma center_instance_partial_write :
  let sample := [("seg", halves); ("seg_mask", np_ones [3; 2; 2])] in
  exists s',
    call SpecKernels.kernels (CenterInstance "seg" "obj" (Some "ctr") true) sample []
    = Raise ShapeError s' /\
    contains sample "ctr" = false /\
    getitem s' "ctr" = Some (mkVolume [2; 2; 2] [0; 0; 0; 0; 0; 0; 0; 1]%Q) /\
    contains s' "obj" = false.
Proof.
  eexists. split; [vm_compute; reflexivity|]. repeat split.
Qed.

(** The crop loop of [Affinity] stopped half-way: the entry ["seg"] is
    cropped, the entry ["img"] is too small, and the label written just
    before is left uncropped. *)
Example affinity_crop_stopped :
  let sample := [("seg", mkVolume [3; 3; 3] (repeat 1%Q 27));
                 ("img", mkVolume [1; 1; 1] [5%Q])] in
  exists s' seg aff,
    call SpecKernels.kernels
      (Affinity [(0, 0, 1)%Z] "seg" "aff" (Some (0, 0, 0)) (Some (2, 2, 2)) None false)
      sample [] = Raise ShapeError s' /\
    getitem s' "seg" = Some seg /\ shape seg = [2; 2; 2] /\
    getitem s' "aff" = Some aff /\ shape aff = [1; 3; 3; 3].
Proof.
  do 3 eexists. split; [vm_compute; reflexivity|]. repeat split.
Qed.

(** [CenterInstance] on the two-slab segmentation: one leading index, one
    voxel set. *)
Lemma center_instance_mask_witness :
  exists m,
    center_mask halves = Ok m /\
    call SpecKernels.kernels (CenterInstance "seg" "obj" (Some "ctr") false)
      [("seg", halves)] []
    = call SpecKernels.kernels (ObjectInstance "seg" "obj" false)
        (setitem [("seg", halves)] "ctr" m) [] /\
    data m = [0; 0; 0; 0; 0; 0; 0; 1]%Q /\
    at4 m 2 2 2 0 1 1 1 = 1%Q /\ at4 m 2 2 2 0 0 1 1 = 0%Q.
Proof.
  destruct (center_instance_mask SpecKernels.kernels "seg" "obj" "ctr" false []
              [("seg", halves)] halves [] 2 2 2 eq_refl eq_refl
              (le_n_S _ _ (le_0_n 1)) (le_n_S _ _ (le_0_n 1)) (le_n_S _ _ (le_0_n 1)))
    as (m & Hm & Hcall & Hshape & Hlen & Hat).
  exists m. split; [exact Hm|]. split; [exact Hcall|].
  split; [injection Hm as <-; reflexivity|].
  split; [apply (Hat 0 1 1 1) | apply (Hat 0 0 1 1)]; repeat constructor.
Defined.

(** C9 as stated fails on a source with two leading indices: the mask
    written before the logic of [ObjectInstance] runs holds two entries 1.0,
    one per leading index. *)
Lemma center_instance_two_voxels :
  exists m,
    center_mask two_channels = Ok m /\
    call SpecKernels.kernels (CenterInstance "seg" "obj" (Some "ctr") false)
      [("seg", two_channels)] []
    = call SpecKernels.kernels (ObjectInstance "seg" "obj" false)
        [("seg", two_channels); ("ctr", m)] [] /\
    shape m = [2; 1; 1; 1] /\
    flat m 0 = 1%Q /\ flat m 1 = 1%Q.
Proof.
  eexists. split; [vm_compute; reflexivity|]. repeat split.
Qed.

(** [ObjectInstance] on the two-slab segmentation, called without
    [object_id] and with [object_id=1]: without, the label is 1.0 on the
    slab of object 2, which holds the centre voxel [(1, 1, 1)]; with, on
    the slab of object 1. *)
Lemma object_instance_label_witness :
  (exists final lbl,
     call SpecKernels.kernels (ObjectInstance "seg" "obj" false) [("seg", halves)] []
     = Return final /\
     getitem final "obj" = Some lbl /\
     shape lbl = [2; 2; 2] /\
     at4 halves 2 2 2 0 1 1 1 = 2%Q /\
     flat lbl 3 = 0%Q /\ flat lbl 4 = 1%Q) /\
  (exists final lbl,
     call SpecKernels.kernels (ObjectInstance "seg" "obj" false) [("seg", halves)]
       [("object_id", PyNum 1)] = Return final /\
     getitem final "obj" = Some lbl /\
     flat lbl 3 = 1%Q /\ flat lbl 4 = 0%Q).
Proof.
  split.
  - eexists.
    destruct (object_instance_label SpecKernels.kernels "seg" "obj" false
                [] [("seg", halves)] _ halves [] 2 2 2
                eq_refl eq_refl eq_refl ltac:(vm_compute; reflexivity))
      as (lbl & Hget & Hshape & Hlen & Hflat).
    exists lbl. split; [reflexivity|]. split; [exact Hget|]. split; [exact Hshape|].
    split; [reflexivity|].
    split; [rewrite (Hflat 3) | rewrite (Hflat 4)]; try reflexivity; simpl; lia.
  - eexists.
    destruct (object_instance_label SpecKernels.kernels "seg" "obj" false
                [("object_id", PyNum 1)] [("seg", halves)] _ halves [] 2 2 2
                eq_refl eq_refl eq_refl ltac:(vm_compute; reflexivity))
      as (lbl & Hget & Hshape & Hlen & Hflat).
    exists lbl. split; [reflexivity|]. split; [exact Hget|].
    split; [rewrite (Hflat 3) | rewrite (Hflat 4)]; try reflexivity; simpl; lia.
Defined.

(** The crop scenario of the specification: the two-slab [4 x 4 x 4] volume,
    the three axis offsets, [crop=(1,1,1)] and [crop_size=(2,2,2)]. *)
Lemma affinity_crops_every_entry_witness :
  exists final seg aff msk,
    call SpecKernels.kernels
      (Affinity axis_dsts "seg" "aff" (Some (1, 1, 1)) (Some (2, 2, 2)) None true)
      [("seg", slabs)] [] = Return final /\
    keys final = ["seg"; "aff"; "aff_mask"] /\
    getitem final "seg" = Some seg /\ shape seg = [2; 2; 2] /\
    getitem final "aff" = Some aff /\ shape aff = [3; 2; 2; 2] /\
    getitem final "aff_mask" = Some msk /\ shape msk = [3; 2; 2; 2].
Proof.
  eexists.
  destruct (affinity_crops_every_entry SpecKernels.kernels axis_dsts "seg" "aff"
              1 1 1 2 2 2 None true [("seg", slabs)] _ [] eq_refl
              ltac:(repeat constructor; simpl; tauto)
              ltac:(vm_compute; reflexivity))
    as (u & Hu & _ & _ & Hkeys & Hall).
  vm_compute in Hu. injection Hu as <-.
  destruct (Hall "seg" _ eq_refl) as (seg & Hseg & Hsh_seg & _).
  destruct (Hall "aff" _ eq_refl) as (aff & Haff & Hsh_aff & _).
  destruct (Hall "aff_mask" _ eq_refl) as (msk & Hmsk & Hsh_msk & _).
  exists seg, aff, msk.
  split; [reflexivity|]. split; [exact Hkeys|].
  split; [exact Hseg|]. split; [exact Hsh_seg|].
  split; [exact Haff|]. split; [exact Hsh_aff|].
  split; [exact Hmsk | exact Hsh_msk].
Defined.

(** [Segmentation] in place on the two-slab segmentation. *)
Lemma segmentation_recompute_twice_witness :
  twice SpecKernels.kernels (Segmentation "seg" "seg" true) [("seg", halves)] []
  = call SpecKernels.kernels (Segmentation "seg" "seg" true) [("seg", halves)] [] /\
  call SpecKernels.kernels (Segmentation "seg" "seg" true) [("seg", halves)] []
  = Return [("seg", mkVolume [2; 2; 2] [1; 1; 1; 1; 5; 5; 5; 5]%Q);
            ("seg_mask", np_ones [2; 2; 2])].
Proof.
  split; [|vm_compute; reflexivity].
  apply (segmentation_recompute_twice SpecKernels.kernels "seg" "seg"
           [("seg", halves)] []).
  - discriminate.
  - discriminate.
  - intros _ seg msk r v m Hex Hrc Hv Hm.
    vm_compute in Hex. injection Hex as <- <-.
    vm_compute in Hrc. injection Hrc as <-.
    vm_compute in Hv. injection Hv as <-.
    vm_compute in Hm. injection Hm as <-.
    split; [split|]; [reflexivity | | reflexivity].
    intros d Hd. simpl in Hd.
    destruct Hd as [<-|[<-|[<-|[]]]]; vm_compute; reflexivity.
Defined.



(** The recompute block on the two-slab segmentation. *)
Lemma recompute_induces_affinities_witness :
  let r := mkVolume [2; 2; 2] [1; 1; 1; 1; 5; 5; 5; 5]%Q in
  recompute_components SpecKernels.kernels halves = Ok r /\
  shape r = [2; 2; 2] /\
  graph_consistent SpecKernels.kernels halves r.
Proof.
  split; [vm_compute; reflexivity|].
  exact (recompute_induces_affinities halves
           (mkVolume [2; 2; 2] [1; 1; 1; 1; 5; 5; 5; 5]%Q)
           ltac:(vm_compute; reflexivity)).
Defined.

(** ** What the transforms read and assign *)

(** A pipeline on a sample that holds an image beside the segmentation: the
    image is left as it was. *)
Lemma pipeline_frame_witness :
  exists final,
    Transformer_call SpecKernels.kernels
      (mkTransformer [Segmentation "seg" "seg" true; Boundary "seg" "bdr" false])
      [("img", slabs); ("seg", halves)] [] = Return final /\
    getitem final "img" = Some slabs.
Proof.
  pose proof (pipeline_frame SpecKernels.kernels
                (mkTransformer [Segmentation "seg" "seg" true; Boundary "seg" "bdr" false])
                [("img", slabs); ("seg", halves)] []) as H.
  destruct (Transformer_call _ _ _ _) as [final|e s'] eqn:E;
    [|vm_compute in E; discriminate].
  exists final. split; [reflexivity|].
  apply (H ltac:(intros tf [<-|[<-|[]]]; reflexivity) "img").
  intros tf [<-|[<-|[]]]; simpl; intuition discriminate.
Defined.

(** [CenterInstance] with a mask key on a sample without its source. *)
Lemma missing_source_witness :
  call SpecKernels.kernels (CenterInstance "seg" "obj" (Some "ctr") true)
    [("img", halves)] []
  = Raise (KeyError "seg") [("img", halves)].
Proof.
  exact (missing_source SpecKernels.kernels (CenterInstance "seg" "obj" (Some "ctr") true)
           [("img", halves)] [] "seg" eq_refl eq_refl).
Defined.

(** [Synapse] on the two-slab segmentation, alone and beside an image. *)
Lemma transform_reads_source_only_witness :
  exists lbl msk,
    call SpecKernels.kernels (Synapse "seg" "syn" false 0) [("seg", halves)] []
    = Return [("seg", halves); ("syn", lbl); ("syn_mask", msk)] /\
    call SpecKernels.kernels (Synapse "seg" "syn" false 0)
      [("img", slabs); ("seg", halves)] []
    = Return [("img", slabs); ("seg", halves); ("syn", lbl); ("syn_mask", msk)].
Proof.
  pose proof (transform_reads_source_only SpecKernels.kernels (Synapse "seg" "syn" false 0)
                [("seg", halves)] [("img", slabs); ("seg", halves)] [] "seg"
                eq_refl eq_refl eq_refl eq_refl) as H.
  destruct (call _ _ [("seg", halves)] _) as [s1|e1 s1] eqn:E1;
    [|vm_compute in E1; discriminate].
  destruct (call _ _ [("img", slabs); ("seg", halves)] _) as [s2|e2 s2] eqn:E2;
    [|contradiction].
  destruct H as (vals & Hlen & -> & ->).
  destruct vals as [|lbl [|msk [|v vals]]]; try discriminate.
  exists lbl, msk. split; reflexivity.
Defined.

(** [Boundary] from ["seg"] to ["bdr"], once and twice: both return the
    sample that holds the boundary and its mask. *)
Lemma transform_twice_apart_witness :
  exists once,
    call SpecKernels.kernels (Boundary "seg" "bdr" false) [("seg", halves)] []
    = Return once /\
    twice SpecKernels.kernels (Boundary "seg" "bdr" false) [("seg", halves)] []
    = Return once /\
    contains once "bdr" = true /\ contains once "bdr_mask" = true.
Proof.
  eexists. split; [vm_compute; reflexivity|]. split; [|split; reflexivity].
  rewrite (transform_twice_apart SpecKernels.kernels (Boundary "seg" "bdr" false)
             [("seg", halves)] [] "seg" eq_refl eq_refl
             ltac:(simpl; intuition discriminate) ltac:(simpl; intuition discriminate)).
  vm_compute. reflexivity.
Defined.

(** A call with [object_id=None] and a parameter that no transform knows,
    and a call without parameters. *)
Lemma pipeline_reads_object_id_only_witness :
  Transformer_call SpecKernels.kernels
    (mkTransformer [ObjectInstance "seg" "obj" false]) [("seg", halves)]
    [("object_id", PyNone); ("verbose", PyNum 1)]
  = Transformer_call SpecKernels.kernels
      (mkTransformer [ObjectInstance "seg" "obj" false]) [("seg", halves)] [].
Proof.
  exact (pipeline_reads_object_id_only SpecKernels.kernels
           (mkTransformer [ObjectInstance "seg" "obj" false]) [("seg", halves)]
           [("object_id", PyNone); ("verbose", PyNum 1)] []
           (conj eq_refl eq_refl) (conj eq_refl eq_refl) eq_refl).
Defined.

(** A pipeline with an instance of the interface behind a [Segmentation]. *)
Lemma interface_transform_raises_witness :
  exists e s',
    Transformer_call SpecKernels.kernels
      (mkTransformer [Segmentation "seg" "seg" true; TransformBase])
      [("seg", halves)] [] = Raise e s'.
Proof.
  exact (interface_transform_raises SpecKernels.kernels
           (mkTransformer [Segmentation "seg" "seg" true; TransformBase])
           [("seg", halves)] [] (or_intror (or_introl eq_refl))).
Defined.

(** [CenterInstance] on a source of two axes, and on a source without
    slices. *)
Lemma center_instance_shape_errors_witness :
  call SpecKernels.kernels (CenterInstance "seg" "obj" (Some "ctr") true)
    [("seg", mkVolume [2; 2] [1; 1; 2; 2]%Q)] []
  = Raise ValueError [("seg", mkVolume [2; 2] [1; 1; 2; 2]%Q)] /\
  call SpecKernels.kernels (CenterInstance "seg" "obj" (Some "ctr") true)
    [("seg", mkVolume [0; 2; 2] [])] []
  = Raise IndexError [("seg", mkVolume [0; 2; 2] [])].
Proof.
  split.
  - apply (center_instance_shape_errors SpecKernels.kernels "seg" "obj" "ctr" true []
             [("seg", mkVolume [2; 2] [1; 1; 2; 2]%Q)] _ eq_refl).
    simpl. lia.
  - apply (center_instance_shape_errors SpecKernels.kernels "seg" "obj" "ctr" true []
             [("seg", mkVolume [0; 2; 2] [])] _ eq_refl).
    + simpl. lia.
    + simpl. auto.
Defined.

(** [Affinity] with the three axis offsets and rebalanced channels on the
    two-slab segmentation. *)
Lemma affinity_label_mask_shape_witness :
  exists final lbl msk,
    call SpecKernels.kernels (Affinity axis_dsts "seg" "aff" None None (Some 0%Q) false)
      [("seg", halves)] [] = Return final /\
    getitem final "aff" = Some lbl /\
    getitem final "aff_mask" = Some msk /\
    shape lbl = [3; 2; 2; 2] /\
    shape msk = [3; 2; 2; 2].
Proof.
  eexists.
  destruct (affinity_label_mask_shape SpecKernels.kernels axis_dsts "seg" "aff" None
              (Some 0%Q) false [("seg", halves)] _ [] halves eq_refl
              ltac:(vm_compute; reflexivity))
    as (seg' & lbl & msk & Hseg & Hl & Hm & Hsl & Hsm).
  injection Hseg as <-.
  exists lbl, msk. split; [reflexivity|]. split; [exact Hl|]. split; [exact Hm|].
  split; [exact Hsl | rewrite Hsm; exact Hsl].
Defined.

(** [Synapse] without rebalancing on a sample whose source has a mask
    with two elements that are no binary32 numbers: [2^24 + 1] is written
    as [2^24], and a third as the binary32 number nearest to it. *)
Lemma mask_passes_through_witness :
  let msk := mkVolume [2; 2; 2] [16777217; 1; 1; 1; 1; 1; 1; 1 # 3]%Q in
  exists final,
    call SpecKernels.kernels (Synapse "seg" "syn" false 0)
      [("seg", halves); ("seg_mask", msk)] [] = Return final /\
    getitem final "syn_mask"
    = Some (mkVolume [2; 2; 2] [16777216; 1; 1; 1; 1; 1; 1; 11184811 # 33554432]%Q).
Proof.
  intros msk. eexists. split; [vm_compute; reflexivity|].
  apply (eq_trans
           (mask_passes_through SpecKernels.kernels (Synapse "seg" "syn" false 0)
              [("seg", halves); ("seg_mask", msk)] _ [] "seg" "syn" halves
              eq_refl eq_refl eq_refl eq_refl
              ltac:(intros m [= <-]; repeat constructor)
              ltac:(vm_compute; reflexivity))).
  vm_compute. reflexivity.
Defined.

(** [Affinity] without offsets on the two-slab segmentation. *)
Lemma affinity_without_offsets_witness :
  call SpecKernels.kernels (Affinity [] "seg" "aff" None None None false)
    [("seg", halves)] []
  = Return [("seg", halves); ("aff", mkVolume [0; 2; 2; 2] []);
            ("aff_mask", mkVolume [0; 2; 2; 2] [])].
Proof.
  exact (affinity_without_offsets SpecKernels.kernels "seg" "aff" None None
           [("seg", halves)] [] halves eq_refl).
Defined.

(** ** Data sections *)

(** The section [label]: its data are read from the file. *)
Lemma prepare_data_result_witness :
  _prepare_data demo_libraries (demo_config true) "label" = Got (halves, zeros3, zeros3) /\
  exists raw path checked preprocess,
    get (demo_config true) "label" "file" = Got path /\
    emio_imread demo_libraries path = Got raw /\
    check_tensor demo_libraries raw = Got checked /\
    evaluate_each demo_libraries checked preprocess = Got halves.
Proof.
  split; [reflexivity|].
  destruct (prepare_data_result demo_libraries (demo_config true) "label"
              halves zeros3 zeros3 eq_refl)
    as (_ & _ & _ & _ & raw & checked & pps & _ & Hfile & _ & _ & _ & Hc & He).
  destruct (Hfile eq_refl) as (path & Hp & Hr).
  exists raw, path, checked, pps. repeat split; assumption.
Defined.

(** The section [label] with and without the options [shape] and
    [filler]. *)
Lemma file_option_wins_witness :
  _prepare_data demo_libraries (demo_config true) "label"
  = _prepare_data demo_libraries (demo_config false) "label".
Proof.
  apply (file_option_wins demo_libraries (demo_config true) (demo_config false) "label"
           eq_refl eq_refl).
  intros option H1 H2. simpl.
  destruct (String.eqb_spec option "shape") as [->|_]; [congruence|].
  destruct (String.eqb_spec option "filler") as [->|_]; [congruence|].
  destruct (String.eqb option "file"), (String.eqb option "transform"); split; reflexivity.
Defined.

(** The label of the section [label]. *)
Lemma config_label_transform_witness :
  exists self,
    ConfigLabel_init demo_libraries (demo_config true) "label" = Got self /\
    (get_transform self = VNone \/
     exists entries, get_transform self = VDict entries /\ has_key entries "type" = true).
Proof.
  eexists. split; [reflexivity|].
  exact (proj2 (config_label_transform demo_libraries (demo_config true) "label" _ eq_refl)).
Defined.

(** The section [empty]. *)
Lemma invalid_data_section_witness :
  ConfigLabel_init demo_libraries (demo_config true) "empty"
  = Raised (RuntimeError "invalid data section [empty]").
Proof.
  exact (proj2 (proj2 (invalid_data_section demo_libraries (demo_config true) "empty"
                         eq_refl eq_refl))).
Defined.

(** The section [image]: the second line of its option [preprocess] is a
    tuple. *)
Lemma preprocess_checked_first_witness :
  exists a,
    _prepare_data demo_libraries (demo_config true) "image"
    = Raised (ConfigAssertionError a) /\
    (a = IsInstanceDict \/ a = TypeInDict).
Proof.
  apply (preprocess_checked_first demo_libraries (demo_config true) "image"
           halves zeros3 zeros3
           [VDict [(VStr "type", VStr "standardize")]; VTuple [VInt 1; VInt 1; VInt 1]]
           eq_refl eq_refl eq_refl eq_refl eq_refl).
  apply Exists_cons_tl, Exists_cons_hd. discriminate.
Defined.
